(** * Observer pattern: the notification engines of
      [src/behavioral/observer/Observer.ts]

    The development embeds the three classes that carry behaviour:

    - [Observable]      (synchronous fan-out, [notifyObservers]),
    - [EventEmitter] / [EventFilter] (re-publication on a second channel),
    - [AsyncObservable] ([notifyObservers] in parallel and
      [notifyObserversSequentially]).

    All three keep their observers in a JavaScript [Set].  What a [Set] does
    while it is being walked and changed at the same time is fixed by
    ECMA-262 (24.2): the entries live in a list, [delete] and [clear] blank a
    slot instead of removing it, [add] appends, and both [forEach] and the
    iterator behind [for ... of] walk that list by index, re-reading its
    length at every turn.  Module [JSSet] follows that text.

    Observers are objects; a reference to one is a natural number and [obj]
    gives the object a reference denotes.  [getId] is a stored string.  The
    bodies of [update] and [updateAsync] are client code: they are arbitrary
    functions on the part of the world a client can reach (the registration
    set through the public methods, and its own memory).  A callback that
    calls back into [notifyObservers] of the same subject is outside the
    model. *)

From Stdlib Require Import String Ascii List Arith PeanoNat Bool Lia.
From Stdlib Require Import Permutation.
Import ListNotations.

Set Implicit Arguments.

(** ** Completion records *)

Definition error := string.

Inductive completion (A : Type) : Type :=
| Normal (a : A)
| Throw (e : error).

Arguments Normal {A} a.
Arguments Throw {A} e.

(** [try { body } catch (e) { handler e }] on a state of type [M]. *)
Definition try_catch {M A : Type}
    (body : M -> completion A * M) (handler : error -> M -> completion A * M)
    (m : M) : completion A * M :=
  match body m with
  | (Normal a, m') => (Normal a, m')
  | (Throw e, m') => handler e m'
  end.

(** ** The built-in [Set] *)

Module JSSet.
Section WithElem.
Context {A : Type} (eq_dec : forall x y : A, {x = y} + {x <> y}).

(** [[SetData]]: a list of values and empty slots. *)
Definition SetData := list (option A).

Definition empty : SetData := [].

Definition holds (x : A) (e : option A) : bool :=
  match e with
  | Some y => if eq_dec x y then true else false
  | None => false
  end.

(** [Set.prototype.has] *)
Definition has (x : A) (s : SetData) : bool := existsb (holds x) s.

(** [Set.prototype.add]: append unless an entry already holds the value. *)
Definition add (x : A) (s : SetData) : SetData :=
  if has x s then s else s ++ [Some x].

(** [Set.prototype.delete]: the slot holding the value becomes empty; the
    boolean tells whether there was one. *)
Definition delete (x : A) (s : SetData) : bool * SetData :=
  (has x s, map (fun e => if holds x e then None else e) s).

(** [Set.prototype.clear]: every slot becomes empty. *)
Definition clear (s : SetData) : SetData := map (fun _ => None) s.

Definition filled (e : option A) : bool :=
  match e with Some _ => true | None => false end.

(** [Set.prototype.size]: the number of slots that are not empty. *)
Definition size (s : SetData) : nat := length (filter filled s).

(** [Array.from(set)]: the values in entry order. *)
Fixpoint elements (s : SetData) : list A :=
  match s with
  | [] => []
  | Some x :: s' => x :: elements s'
  | None :: s' => elements s'
  end.

(** [new Set(iterable)] *)
Definition of_list (l : list A) : SetData :=
  fold_left (fun s x => add x s) l empty.

(** No value sits in two slots. *)
Definition wf (s : SetData) : Prop := NoDup (elements s).

(** The walk shared by [Set.prototype.forEach] and by the Set iterator
    that [for (const x of set)] drives.  [entries] reads the live
    [[SetData]] out of the state at every turn; [body] is the callback or
    the loop body.  An abrupt completion of [body] ends the walk and is the
    completion of the whole.  [fuel] bounds the number of turns; [None]
    means the bound was reached with the walk still under way. *)
Section Walk.
Context {M : Type} (entries : M -> SetData)
        (body : A -> M -> completion unit * M).

Fixpoint walk (fuel : nat) (index : nat) (m : M)
  : option (completion unit) * M :=
  if length (entries m) <=? index then (Some (Normal tt), m)
  else
    match fuel with
    | 0 => (None, m)
    | S fuel' =>
        match nth index (entries m) None with
        | None => walk fuel' (S index) m
        | Some x =>
            match body x m with
            | (Normal _, m') => walk fuel' (S index) m'
            | (Throw e, m') => (Some (Throw e), m')
            end
        end
    end.

(** A value whose turn completes normally and leaves the entries as they
    are. *)
Definition calm (x : A) : Prop :=
  forall m, fst (body x m) = Normal tt /\ entries (snd (body x m)) = entries m.

(** The turns of the values [xs], one after the other. *)
Definition visit (xs : list A) (m : M) : M :=
  fold_left (fun m x => snd (body x m)) xs m.
End Walk.
End WithElem.
End JSSet.

(** Object references of observers; [Set] compares objects by identity. *)
Definition ref := nat.
Definition ref_dec : forall x y : ref, {x = y} + {x <> y} := Nat.eq_dec.

(** What client code can reach: the subject's registration set (through
    [addObserver], [removeObserver], [clearObservers]) and its own memory. *)
Record store (U : Type) : Type := mkStore {
  observers : JSSet.SetData (A := ref);
  heap : U
}.

(** ** [class Observable<T>] *)

Module Observable.
Section WithPayload.
Context {T U : Type}.

(** [interface Observer<T>] *)
Record Observer : Type := mkObserver {
  getId : string;
  update : T -> store U -> completion unit * store U
}.

Variable obj : ref -> Observer.

(** The subject together with what the outside can see of a run:
    [console] holds the lines written, [calls] the invocations
    [observer.update(data)] in the order they were made, [notified] the
    payloads [notifyObservers] was entered with. *)
Record machine : Type := mkMachine {
  mem : store U;
  console : list string;
  calls : list (ref * T);
  notified : list T
}.

Definition set_mem (s : store U) (m : machine) : machine :=
  mkMachine s (console m) (calls m) (notified m).

Definition set_observers (o : JSSet.SetData) (s : store U) : store U :=
  mkStore o (heap s).

Definition addObserver (observer : ref) (s : store U)
  : completion unit * store U :=
  (Normal tt, set_observers (JSSet.add ref_dec observer (observers s)) s).

Definition removeObserver (observer : ref) (s : store U)
  : completion unit * store U :=
  (Normal tt,
   set_observers (snd (JSSet.delete ref_dec observer (observers s))) s).

Definition getObserverCount (s : store U) : nat :=
  JSSet.size (observers s).

Definition hasObserver (observer : ref) (s : store U) : bool :=
  JSSet.has ref_dec observer (observers s).

Definition clearObservers (s : store U) : completion unit * store U :=
  (Normal tt, set_observers (JSSet.clear (observers s)) s).

(** [console.error(text, error)] and [console.log(text)] *)
Definition console_write (line : string) (m : machine)
  : completion unit * machine :=
  (Normal tt, mkMachine (mem m) (console m ++ [line]) (calls m) (notified m)).

(** [observer.update(data)] *)
Definition call_update (observer : ref) (data : T) (m : machine)
  : completion unit * machine :=
  let (c, s') := update (obj observer) data (mem m) in
  (c, mkMachine s' (console m) (calls m ++ [(observer, data)]) (notified m)).

Definition error_line (observer : ref) (e : error) : string :=
  ("Error notifying observer " ++ getId (obj observer) ++ ": " ++ e)%string.

(** The arrow function handed to [forEach]:
    [observer => { try { observer.update(data); }
                   catch (error) { console.error(..., error); } }] *)
Definition notify_one (data : T) (observer : ref)
  : machine -> completion unit * machine :=
  try_catch (call_update observer data)
            (fun e => console_write (error_line observer e)).

(** [notifyObservers(data) { this.observers.forEach(observer => ...) }]:
    the walk is over the set itself, no copy is taken. *)
Definition notifyObservers (fuel : nat) (data : T) (m : machine)
  : option (completion unit) * machine :=
  JSSet.walk (fun m => observers (mem m)) (notify_one data) fuel 0
             (mkMachine (mem m) (console m) (calls m) (notified m ++ [data])).

(** The payloads handed to [observer], oldest first. *)
Definition received (observer : ref) (cs : list (ref * T)) : list T :=
  map snd (filter (fun c => Nat.eqb observer (fst c)) cs).

(** An observer whose [update] leaves the registration set as it is. *)
Definition quiet (o : Observer) : Prop :=
  forall d s, observers (snd (update o d s)) = observers s.

(** An observer whose [update] registers nobody who was not registered:
    the entry list does not grow. *)
Definition registers_nobody (o : Observer) : Prop :=
  forall d s, length (observers (snd (update o d s))) <= length (observers s).

(** An observer whose [update] throws every time. *)
Definition always_throws (o : Observer) : Prop :=
  forall d s, exists e, fst (update o d s) = Throw e.
End WithPayload.
End Observable.

Arguments Observable.Observer : clear implicits.
Arguments Observable.machine : clear implicits.

(** ** [class EventEmitter extends Observable<Event>] and [class EventFilter] *)

(** [interface Event]; [data] has type [any], [timestamp] is the reading of
    the clock, [source] is optional. *)
Record Event (D : Type) : Type := mkEvent {
  type : string;
  data : D;
  timestamp : nat;
  source : option string
}.

(** What a template literal prints for an optional string. *)
Definition template_text (o : option string) : string :=
  match o with
  | Some s => s
  | None => "undefined"%string
  end.

Module EventEmitter.
Section WithData.
Context {D U : Type}.
Variable obj : ref -> Observable.Observer (Event D) U.

Definition machine := Observable.machine (Event D) U.

(** [new EventEmitter()] *)
Definition new (h : U) : machine :=
  Observable.mkMachine (mkStore JSSet.empty h) [] [] [].

(** [emit(type, data, source)]; [now] is what [new Date()] reads. *)
Definition emit (fuel : nat) (now : nat)
    (type : string) (data : D) (source : option string) (m : machine)
  : option (completion unit) * machine :=
  Observable.notifyObservers obj fuel (mkEvent type data now source) m.
End WithData.
End EventEmitter.

Module EventFilter.
Section WithData.
Context {D U : Type}.
Variable obj : ref -> Observable.Observer (Event D) U.

Record EventFilter : Type := mkEventFilter {
  id : string;
  allowedTypes : JSSet.SetData (A := string);
  filteredEmitter : EventEmitter.machine (D := D) (U := U)
}.

(** [constructor(id, allowedTypes)] *)
Definition new (id : string) (allowedTypes : list string) (h : U)
  : EventFilter :=
  mkEventFilter id (JSSet.of_list string_dec allowedTypes)
                (EventEmitter.new h).

Definition getFilteredEmitter (this : EventFilter) := filteredEmitter this.

Definition getId (this : EventFilter) : string := id this.

Definition filtering_line (this : EventFilter) (event : Event D) : string :=
  ("[" ++ id this ++ "] Filtering event: " ++ type event)%string.

(** The event that [update] has [emit] build from [event] when the clock
    reads [now]. *)
Definition derived (now : nat) (event : Event D) : Event D :=
  mkEvent (type event) (data event) now
          (Some ("filtered-" ++ template_text (source event))%string).

(** [update(event) {
      if (this.allowedTypes.has(event.type)) {
        console.log(`[${this.id}] Filtering event: ${event.type}`);
        this.filteredEmitter.emit(event.type, event.data,
                                  `filtered-${event.source}`);
      } }] *)
Definition update (fuel : nat) (now : nat) (event : Event D)
    (this : EventFilter) : option (completion unit) * EventFilter :=
  if JSSet.has string_dec (type event) (allowedTypes this) then
    let (_, m1) :=
      Observable.console_write (filtering_line this event)
                               (filteredEmitter this) in
    let (c, m2) :=
      EventEmitter.emit obj fuel now (type event) (data event)
        (Some ("filtered-" ++ template_text (source event))%string) m1 in
    (c, mkEventFilter (id this) (allowedTypes this) m2)
  else (Some (Normal tt), this).
End WithData.
End EventFilter.

Arguments EventFilter.EventFilter : clear implicits.

(** ** [class AsyncObservable<T>] *)

Module AsyncObservable.
Section WithPayload.
Context {T U : Type}.

(** What is left to run of the body of an [async] function.  [Run step
    next] runs the code up to the next [await] ([step]) and goes on as
    [next]; [Finish c] is the end of the body, where the promise settles:
    fulfilled for [Normal], rejected for [Throw]. *)
Inductive task : Type :=
| Finish (c : completion unit)
| Run (step : store U -> store U) (next : store U -> task).

(** [interface AsyncObserver<T>] *)
Record AsyncObserver : Type := mkAsyncObserver {
  getId : string;
  updateAsync : T -> task
}.

Variable obj : ref -> AsyncObserver.

(** What the outside sees of one observer's invocation. *)
Inductive event : Type :=
| Invoked (observer : ref) (data : T)
| Settled (observer : ref) (c : completion unit).

Record machine : Type := mkMachine {
  mem : store U;
  console : list string;
  trace : list event
}.

Definition set_mem (s : store U) (m : machine) : machine :=
  mkMachine s (console m) (trace m).

Definition record (e : event) (m : machine) : machine :=
  mkMachine (mem m) (console m) (trace m ++ [e]).

Definition set_observers (o : JSSet.SetData) (s : store U) : store U :=
  mkStore o (heap s).

Definition addObserver (observer : ref) (s : store U)
  : completion unit * store U :=
  (Normal tt, set_observers (JSSet.add ref_dec observer (observers s)) s).

Definition removeObserver (observer : ref) (s : store U)
  : completion unit * store U :=
  (Normal tt,
   set_observers (snd (JSSet.delete ref_dec observer (observers s))) s).

Definition console_write (line : string) (m : machine)
  : completion unit * machine :=
  (Normal tt, mkMachine (mem m) (console m ++ [line]) (trace m)).

Definition error_line (observer : ref) (e : error) : string :=
  ("Error notifying async observer " ++ getId (obj observer) ++ ": " ++ e)
    %string.

(** Run a body up to its next suspension. *)
Definition advance (t : task) (s : store U) : store U * task :=
  match t with
  | Finish c => (s, Finish c)
  | Run step next => (step s, next s)
  end.

(** Run a body to its end: what [await] of its promise waits for when
    nothing else is in flight. *)
Fixpoint run_task (t : task) (s : store U) : completion unit * store U :=
  match t with
  | Finish c => (c, s)
  | Run step next => run_task (next s) (step s)
  end.

(** *** [notifyObserversSequentially] *)

(** [await observer.updateAsync(data)] with nothing else in flight. *)
Definition await_update (observer : ref) (data : T) (m : machine)
  : completion unit * machine :=
  let m1 := record (Invoked observer data) m in
  let (c, s') := run_task (updateAsync (obj observer) data) (mem m1) in
  (c, record (Settled observer c) (set_mem s' m1)).

(** The body of the [for ... of] loop:
    [try { await observer.updateAsync(data); }
     catch (error) { console.error(..., error); }] *)
Definition sequential_one (data : T) (observer : ref)
  : machine -> completion unit * machine :=
  try_catch (await_update observer data)
            (fun e => console_write (error_line observer e)).

(** [for (const observer of this.observers) { ... }]: again a walk over
    the set itself. *)
Definition notifyObserversSequentially (fuel : nat) (data : T) (m : machine)
  : option (completion unit) * machine :=
  JSSet.walk (fun m => observers (mem m)) (sequential_one data) fuel 0 m.

(** *** [notifyObservers] (parallel) *)

(** An invocation in flight: the observer and the rest of its body. *)
Definition pool := list (ref * task).

(** The [try]/[catch] of the arrow function handed to [map], once the
    promise it awaits has settled with [c]: the completion is that of the
    arrow function's own promise. *)
Definition settle (observer : ref) (c : completion unit)
  : machine -> completion unit * machine :=
  try_catch (fun m => (c, record (Settled observer c) m))
            (fun e => console_write (error_line observer e)).

(** One turn of [Array.prototype.map]: the arrow function calls
    [observer.updateAsync(data)], which runs up to its first [await]. The
    result is the promise of the arrow function when it is settled already,
    or the invocation in flight. *)
Definition start_one (data : T) (observer : ref) (m : machine)
  : (completion unit + ref * task) * machine :=
  let m1 := record (Invoked observer data) m in
  let (s', t') := advance (updateAsync (obj observer) data) (mem m1) in
  match t' with
  | Finish c =>
      let (cw, m2) := settle observer c (set_mem s' m1) in (inl cw, m2)
  | Run _ _ => (inr (observer, t'), set_mem s' m1)
  end.

(** [Array.from(this.observers).map(async observer => ...)]: the settled
    promises, the invocations in flight, and the state. *)
Fixpoint start_all (data : T) (snapshot : list ref) (m : machine)
  : list (completion unit) * pool * machine :=
  match snapshot with
  | [] => ([], [], m)
  | observer :: rest =>
      let (r, m1) := start_one data observer m in
      let '(done, flying, m2) := start_all data rest m1 in
      match r with
      | inl cw => (cw :: done, flying, m2)
      | inr p => (done, p :: flying, m2)
      end
  end.

(** The scheduler resumes the invocation at the head of the pool: it runs
    up to its next [await], and when its body ends the arrow function around
    it settles. *)
Definition resume_head (observer : ref) (t : task) (rest : pool) (m : machine)
  : pool * list (completion unit) * machine :=
  let (s', t') := advance t (mem m) in
  match t' with
  | Finish c =>
      let (cw, m2) := settle observer c (set_mem s' m) in (rest, [cw], m2)
  | Run _ _ => ((observer, t') :: rest, [], set_mem s' m)
  end.

(** The scheduler resumes the [i]-th invocation in flight (the last one
    when [i] is past the end). *)
Fixpoint resume (i : nat) (p : pool) (m : machine) {struct p}
  : pool * list (completion unit) * machine :=
  match p with
  | [] => ([], [], m)
  | (observer, t) :: rest =>
      match i, rest with
      | S j, _ :: _ =>
          let '(rest', done, m') := resume j rest m in
          ((observer, t) :: rest', done, m')
      | _, _ => resume_head observer t rest m
      end
  end.

Fixpoint first_rejection (l : list (completion unit)) : option error :=
  match l with
  | [] => None
  | Normal _ :: l' => first_rejection l'
  | Throw e :: l' => Some e
  end.

(** [await Promise.all(notifications)]: rejected as soon as one of the
    promises is, fulfilled when all are.  [sched] lists the scheduler's
    choices; [None] means the choices ran out with invocations still in
    flight. *)
Fixpoint Promise_all (sched : list nat) (settled : list (completion unit))
    (p : pool) (m : machine) : option (completion unit) * machine :=
  match first_rejection settled with
  | Some e => (Some (Throw e), m)
  | None =>
      match p with
      | [] => (Some (Normal tt), m)
      | _ :: _ =>
          match sched with
          | [] => (None, m)
          | i :: sched' =>
              let '(p', done, m') := resume i p m in
              Promise_all sched' done p' m'
          end
      end
  end.

(** [const notifications = Array.from(this.observers).map(async ...);
     await Promise.all(notifications);] *)
Definition notifyObservers (sched : list nat) (data : T) (m : machine)
  : option (completion unit) * machine :=
  let snapshot := JSSet.elements (observers (mem m)) in
  let '(done, flying, m1) := start_all data snapshot m in
  Promise_all sched done flying m1.

(** Every stretch of a body between two [await]s relates the store before
    it to the store after it by [P]. *)
Fixpoint task_keeps (P : store U -> store U -> Prop) (t : task) : Prop :=
  match t with
  | Finish _ => True
  | Run step next => (forall s, P s (step s)) /\ forall s, task_keeps P (next s)
  end.

(** An observer whose [updateAsync] leaves the registration set as it is. *)
Definition quiet (o : AsyncObserver) : Prop :=
  forall d, task_keeps (fun s s' => observers s' = observers s)
                       (updateAsync o d).

(** An observer whose [updateAsync] registers nobody who was not
    registered. *)
Definition registers_nobody (o : AsyncObserver) : Prop :=
  forall d, task_keeps (fun s s' => length (observers s') <= length (observers s))
                       (updateAsync o d).

(** A pool all of whose invocations end, however the scheduler chooses. *)
Inductive finishes : pool -> Prop :=
| finishes_nil : finishes []
| finishes_step (p : pool) :
    (forall i m, finishes (fst (fst (resume i p m)))) -> finishes p.

(** An observer whose promise is rejected every time. *)
Definition always_rejects (o : AsyncObserver) : Prop :=
  forall d s, exists e, fst (run_task (updateAsync o d) s) = Throw e.

(** The invocations begun and the invocations ended in a trace. *)
Fixpoint invocations (tr : list event) : list (ref * T) :=
  match tr with
  | [] => []
  | Invoked r d :: tr' => (r, d) :: invocations tr'
  | Settled _ _ :: tr' => invocations tr'
  end.

Fixpoint settlements (tr : list event) : list ref :=
  match tr with
  | [] => []
  | Invoked _ _ :: tr' => settlements tr'
  | Settled r _ :: tr' => r :: settlements tr'
  end.

(** The trace of invocations made one after the other: each begins and ends
    before the next begins. *)
Definition turns (data : T) (visits : list (ref * completion unit))
  : list event :=
  flat_map (fun v => [Invoked (fst v) data; Settled (fst v) (snd v)]) visits.

(** No invocation begins while another is under way: whenever [Invoked]
    occurs, as many invocations have ended as have begun before it. *)
Definition one_at_a_time (tr : list event) : Prop :=
  forall before r d after,
    tr = before ++ Invoked r d :: after ->
    length (settlements before) = length (invocations before).
End WithPayload.
End AsyncObservable.

Arguments AsyncObservable.AsyncObserver : clear implicits.
Arguments AsyncObservable.machine : clear implicits.
Arguments AsyncObservable.task : clear implicits.
Arguments AsyncObservable.event : clear implicits.

(** ** Concrete observers

    Small casts of observers on which the statements below are tried.  The
    payload is a number and the clients keep no memory of their own. *)

Module Scenario.

Definition silent : Observable.Observer nat unit :=
  Observable.mkObserver "silent" (fun _ s => (Normal tt, s)).

Definition faulty : Observable.Observer nat unit :=
  Observable.mkObserver "faulty" (fun _ s => (Throw "boom"%string, s)).

(** [update() { subject.addObserver(b) }] *)
Definition recruiter (b : ref) : Observable.Observer nat unit :=
  Observable.mkObserver "recruiter" (fun _ s => Observable.addObserver b s).

(** [update() { subject.removeObserver(b) }] *)
Definition bouncer (b : ref) : Observable.Observer nat unit :=
  Observable.mkObserver "bouncer" (fun _ s => Observable.removeObserver b s).

(** [update() { subject.removeObserver(b); throw new Error("boom") }] *)
Definition saboteur (b : ref) : Observable.Observer nat unit :=
  Observable.mkObserver "saboteur"
    (fun _ s => (Throw "boom"%string, snd (Observable.removeObserver b s))).

(** [update() { subject.removeObserver(this); subject.addObserver(this) }] *)
Definition requeuer (self : ref) : Observable.Observer nat unit :=
  Observable.mkObserver "requeuer"
    (fun _ s => Observable.addObserver self
                  (snd (Observable.removeObserver self s))).

(** Object 0 is [first], every other object is [silent]. *)
Definition cast (first : Observable.Observer nat unit) (r : ref)
  : Observable.Observer nat unit :=
  match r with
  | 0 => first
  | S _ => silent
  end.

(** A fresh subject on which [rs] were registered in this order. *)
Definition subject (rs : list ref) : Observable.machine nat unit :=
  Observable.mkMachine
    (fold_left (fun s r => snd (Observable.addObserver r s)) rs
               (mkStore JSSet.empty tt))
    [] [] [].

(** [async updateAsync() { await tick; }] *)
Definition asilent : AsyncObservable.AsyncObserver nat unit :=
  AsyncObservable.mkAsyncObserver "silent"
    (fun _ => AsyncObservable.Run (fun s => s)
                (fun _ => AsyncObservable.Run (fun s => s)
                            (fun _ => AsyncObservable.Finish (Normal tt)))).

(** [async updateAsync() { await tick; throw new Error("boom") }] *)
Definition afaulty : AsyncObservable.AsyncObserver nat unit :=
  AsyncObservable.mkAsyncObserver "faulty"
    (fun _ => AsyncObservable.Run (fun s => s)
                (fun _ => AsyncObservable.Run (fun s => s)
                            (fun _ => AsyncObservable.Finish
                                        (Throw "boom"%string)))).

(** [async updateAsync() { subject.removeObserver(b); throw ... }] *)
Definition asaboteur (b : ref) : AsyncObservable.AsyncObserver nat unit :=
  AsyncObservable.mkAsyncObserver "saboteur"
    (fun _ => AsyncObservable.Run
                (fun s => snd (AsyncObservable.removeObserver b s))
                (fun _ => AsyncObservable.Finish (Throw "boom"%string))).

(** [async updateAsync() { subject.removeObserver(this);
                           subject.addObserver(this) }] *)
Definition arequeuer (self : ref) : AsyncObservable.AsyncObserver nat unit :=
  AsyncObservable.mkAsyncObserver "requeuer"
    (fun _ => AsyncObservable.Run
                (fun s => snd (AsyncObservable.addObserver self
                                 (snd (AsyncObservable.removeObserver self s))))
                (fun _ => AsyncObservable.Finish (Normal tt))).

Definition acast (first : AsyncObservable.AsyncObserver nat unit) (r : ref)
  : AsyncObservable.AsyncObserver nat unit :=
  match r with
  | 0 => first
  | S _ => asilent
  end.

Definition asubject (rs : list ref) : AsyncObservable.machine nat unit :=
  AsyncObservable.mkMachine
    (fold_left (fun s r => snd (AsyncObservable.addObserver r s)) rs
               (mkStore JSSet.empty tt))
    [] [].

(** The filter of the demonstration, [new EventFilter('ErrorFilter',
    ['error', 'warning'])], with one logger subscribed downstream. *)
Definition logger : Observable.Observer (Event nat) unit :=
  Observable.mkObserver "ErrorLogger" (fun _ s => (Normal tt, s)).

Definition errorFilter : EventFilter.EventFilter nat unit :=
  let f := EventFilter.new "ErrorFilter" ["error"; "warning"]%string tt in
  EventFilter.mkEventFilter (EventFilter.id f) (EventFilter.allowedTypes f)
    (Observable.set_mem
       (snd (Observable.addObserver 0
               (Observable.mem (EventFilter.getFilteredEmitter f))))
       (EventFilter.getFilteredEmitter f)).

Definition event_of (type : string) (source : option string) : Event nat :=
  mkEvent type 42 5 source.
End Scenario.

(** ** Series of requests to the registration set *)

Module Registry.
Section WithMemory.
Context {U : Type}.

(** One call of [addObserver], [removeObserver] or [clearObservers]. *)
Inductive request : Type :=
| Add (observer : ref)
| Remove (observer : ref)
| Clear.

Definition perform (q : request) (s : store U) : store U :=
  match q with
  | Add o => snd (Observable.addObserver o s)
  | Remove o => snd (Observable.removeObserver o s)
  | Clear => snd (Observable.clearObservers s)
  end.

Definition perform_all (qs : list request) (s : store U) : store U :=
  fold_left (fun s q => perform q s) qs s.

(** The roster: the registered observers as a plain list, oldest
    registration first.  This is what the requests mean when the empty slots
    of the [Set] are forgotten. *)
Definition enrol (q : request) (l : list ref) : list ref :=
  match q with
  | Add o => if in_dec ref_dec o l then l else l ++ [o]
  | Remove o => filter (fun r => negb (Nat.eqb o r)) l
  | Clear => []
  end.

Definition roster (qs : list request) (l : list ref) : list ref :=
  fold_left (fun l q => enrol q l) qs l.
End WithMemory.
End Registry.

(** ** [class EventLogger] *)

Module EventLogger.
Section WithData.
Context {D : Type}.

(** The [logs] field of every logger object.  The line that [update]
    prints formats a [Date] and is left out. *)
Definition memory : Type := ref -> list (Event D).

(** [update(event) { this.logs.push(event); console.log(...) }] *)
Definition update (this : ref) (event : Event D) (s : store memory)
  : completion unit * store memory :=
  (Normal tt,
   mkStore (observers s)
     (fun r => if Nat.eqb r this then heap s r ++ [event] else heap s r)).

(** [getLogs() { return [...this.logs]; }] *)
Definition getLogs (this : ref) (s : store memory) : list (Event D) :=
  heap s this.

Definition getLogsCount (this : ref) (s : store memory) : nat :=
  length (heap s this).

(** The logger object at [this], as an observer. *)
Definition observer (id : string) (this : ref)
  : Observable.Observer (Event D) memory :=
  Observable.mkObserver id (update this).

(** A series of [emit] calls, each with the reading of the clock at the
    call. *)
Fixpoint emit_all (obj : ref -> Observable.Observer (Event D) memory)
    (fuel : nat) (calls : list (nat * Event D))
    (m : EventEmitter.machine (D := D) (U := memory))
  : EventEmitter.machine (D := D) (U := memory) :=
  match calls with
  | [] => m
  | (now, e) :: rest =>
      emit_all obj fuel rest
        (snd (EventEmitter.emit obj fuel now (type e) (data e) (source e) m))
  end.

(** A series of [update] calls on a filter. *)
Fixpoint update_all (obj : ref -> Observable.Observer (Event D) memory)
    (fuel : nat) (calls : list (nat * Event D))
    (this : EventFilter.EventFilter D memory)
  : EventFilter.EventFilter D memory :=
  match calls with
  | [] => this
  | (now, e) :: rest =>
      update_all obj fuel rest (snd (EventFilter.update obj fuel now e this))
  end.
End WithData.
End EventLogger.

(** ** The weather station and the stock market

    JavaScript numbers are floating-point numbers.  The classes below only
    store them, subtract, multiply, divide and compare them, and print them;
    these operations are taken as they come, as parameters. *)

Module Weather.
Section WithNumber.
Context {number : Type}.
Variable sub : number -> number -> number.
Variable gt lt : number -> number -> bool.
Variable neg : number -> number.
(** The number that a decimal literal of the source denotes. *)
Variable of_decimal : string -> number.

(** [interface WeatherData]; [timestamp] is the reading of the clock. *)
Record WeatherData : Type := mkWeatherData {
  temperature : number;
  humidity : number;
  pressure : number;
  timestamp : nat
}.

(** [class WeatherStation extends Observable<WeatherData>] *)
Record WeatherStation (U : Type) : Type := mkWeatherStation {
  subject : Observable.machine WeatherData U;
  currentWeather : WeatherData
}.

(** [constructor()] *)
Definition newStation {U : Type} (now : nat) (h : U) : WeatherStation U :=
  mkWeatherStation
    (Observable.mkMachine (mkStore JSSet.empty h) [] [] [])
    (mkWeatherData (of_decimal "20") (of_decimal "50") (of_decimal "1013.25")
                   now).

(** [setWeatherData(temperature, humidity, pressure) {
      this.currentWeather = { temperature, humidity, pressure,
                              timestamp: new Date() };
      this.notifyObservers(this.currentWeather); }] *)
Definition setWeatherData {U : Type}
    (obj : ref -> Observable.Observer WeatherData U) (fuel : nat) (now : nat)
    (temperature humidity pressure : number) (this : WeatherStation U)
  : option (completion unit) * WeatherStation U :=
  let weather := mkWeatherData temperature humidity pressure now in
  let (c, m') := Observable.notifyObservers obj fuel weather (subject this) in
  (c, mkWeatherStation m' weather).

(** [getCurrentWeather() { return { ...this.currentWeather }; }] *)
Definition getCurrentWeather {U : Type} (this : WeatherStation U)
  : WeatherData :=
  currentWeather this.

(** [class WeatherForecast] *)
Record WeatherForecast : Type := mkWeatherForecast {
  id : string;
  history : list WeatherData
}.

Definition newForecast (id : string) : WeatherForecast :=
  mkWeatherForecast id [].

(** [generateForecast()].  [this.history[i]!] of an index outside the array
    is [undefined], and reading a property of it throws. *)
Definition generateForecast (this : WeatherForecast) : completion string :=
  let h := history this in
  if length h <? 2 then Normal "Not enough data"%string
  else
    match nth_error h (length h - 1), nth_error h (length h - 2) with
    | Some latest, Some previous =>
        let tempTrend := sub (temperature latest) (temperature previous) in
        let pressureTrend := sub (pressure latest) (pressure previous) in
        if gt pressureTrend (of_decimal "1") && gt tempTrend (of_decimal "0")
        then Normal "Improving weather expected"%string
        else if lt pressureTrend (neg (of_decimal "1"))
                && lt tempTrend (of_decimal "0")
        then Normal "Stormy weather expected"%string
        else Normal "Stable weather expected"%string
    | _, _ => Throw "TypeError"%string
    end.

(** [update(weather)]: [push], then [shift] when more than ten readings are
    kept, then the forecast is printed.  The normal result is the line
    printed. *)
Definition update (weather : WeatherData) (this : WeatherForecast)
  : completion string * WeatherForecast :=
  let pushed := history this ++ [weather] in
  let kept := if 10 <? length pushed then tl pushed else pushed in
  let this' := mkWeatherForecast (id this) kept in
  match generateForecast this' with
  | Normal forecast =>
      (Normal ("[" ++ id this ++ "] Weather Forecast: " ++ forecast)%string,
       this')
  | Throw e => (Throw e, this')
  end.

(** A series of [update] calls: the lines printed, oldest first, and the
    forecaster afterwards; an exception ends the series. *)
Fixpoint update_all (ws : list WeatherData) (this : WeatherForecast)
  : completion (list string) * WeatherForecast :=
  match ws with
  | [] => (Normal [], this)
  | w :: rest =>
      match update w this with
      | (Normal line, this') =>
          match update_all rest this' with
          | (Normal lines, this'') => (Normal (line :: lines), this'')
          | (Throw e, this'') => (Throw e, this'')
          end
      | (Throw e, this') => (Throw e, this')
      end
  end.
End WithNumber.
End Weather.

Module StockMarket.
Section WithNumber.
Context {number : Type}.
Variable sub mul div : number -> number -> number.
Variable ge : number -> number -> bool.
(** Whether a number counts as true in a condition (zero and NaN do
    not). *)
Variable truthy : number -> bool.
(** [`${n}`] and [n.toFixed(2)] *)
Variable show toFixed2 : number -> string.
Variable of_decimal : string -> number.

(** [interface StockData] *)
Record StockData : Type := mkStockData {
  symbol : string;
  price : number;
  change : number;
  changePercent : number;
  volume : number;
  timestamp : nat
}.

(** [class Stock extends Observable<StockData>] *)
Record Stock (U : Type) : Type := mkStock {
  subject : Observable.machine StockData U;
  stockSymbol : string;
  stockPrice : number;
  previousPrice : number
}.

(** [constructor(symbol, initialPrice)] *)
Definition newStock {U : Type} (symbol : string) (initialPrice : number)
    (h : U) : Stock U :=
  mkStock (Observable.mkMachine (mkStore JSSet.empty h) [] [] [])
          symbol initialPrice initialPrice.

(** [setPrice(newPrice)].  [volume] is the value of
    [Math.floor(Math.random() * 1000000) + 100000] at the call, [now] that
    of [new Date()]. *)
Definition setPrice {U : Type}
    (obj : ref -> Observable.Observer StockData U) (fuel : nat)
    (now : nat) (volume : number) (newPrice : number) (this : Stock U)
  : option (completion unit) * Stock U :=
  let previous := stockPrice this in
  let change := sub newPrice previous in
  let changePercent := mul (div change previous) (of_decimal "100") in
  let stockData :=
    mkStockData (stockSymbol this) newPrice change changePercent volume now in
  let (c, m') := Observable.notifyObservers obj fuel stockData (subject this) in
  (c, mkStock m' (stockSymbol this) newPrice previous).

Definition getPrice {U : Type} (this : Stock U) : number := stockPrice this.

Definition getSymbol {U : Type} (this : Stock U) : string := stockSymbol this.

(** A series of [setPrice] calls, each with the clock, the random volume
    and the new price. *)
Fixpoint setPrice_all {U : Type}
    (obj : ref -> Observable.Observer StockData U) (fuel : nat)
    (calls : list (nat * number * number)) (this : Stock U) : Stock U :=
  match calls with
  | [] => this
  | (now, volume, newPrice) :: rest =>
      setPrice_all obj fuel rest
        (snd (setPrice obj fuel now volume newPrice this))
  end.

(** The quotes that a series of price changes should publish, given the
    symbol and the price before the series: each change is taken against the
    price of the call before. *)
Fixpoint quotes (symbol : string) (previous : number)
    (calls : list (nat * number * number)) : list StockData :=
  match calls with
  | [] => []
  | (now, volume, newPrice) :: rest =>
      mkStockData symbol newPrice (sub newPrice previous)
        (mul (div (sub newPrice previous) previous) (of_decimal "100"))
        volume now
      :: quotes symbol newPrice rest
  end.

(** The built-in [Map<string, number>]: entries in insertion order;
    [set] of a key that is there replaces its value in place. *)
Fixpoint Map_set (key : string) (value : number)
    (entries : list (string * number)) : list (string * number) :=
  match entries with
  | [] => [(key, value)]
  | (k, v) :: rest =>
      if String.eqb k key then (k, value) :: rest
      else (k, v) :: Map_set key value rest
  end.

Fixpoint Map_get (key : string) (entries : list (string * number))
  : option number :=
  match entries with
  | [] => None
  | (k, v) :: rest => if String.eqb k key then Some v else Map_get key rest
  end.

(** [class PortfolioTracker] *)
Record PortfolioTracker : Type := mkPortfolioTracker {
  id : string;
  holdings : list (string * number)
}.

Definition newTracker (id : string) : PortfolioTracker :=
  mkPortfolioTracker id [].

(** [addHolding(symbol, shares) { this.holdings.set(symbol, shares); }] *)
Definition addHolding (symbol : string) (shares : number)
    (this : PortfolioTracker) : PortfolioTracker :=
  mkPortfolioTracker (id this) (Map_set symbol shares (holdings this)).

Definition portfolio_line (this : PortfolioTracker) (stock : StockData)
    (shares : number) : string :=
  let value := mul shares (price stock) in
  let change := mul shares (change stock) in
  ("[" ++ id this ++ "] Portfolio: " ++ symbol stock ++ " " ++ show shares
   ++ " shares = $" ++ toFixed2 value ++ " ("
   ++ (if ge change (of_decimal "0") then "+" else "") ++ "$"
   ++ toFixed2 change ++ ")")%string.

(** [update(stock)]: the line printed, if any.
    [const shares = this.holdings.get(stock.symbol); if (shares) { ... }] *)
Definition update (stock : StockData) (this : PortfolioTracker)
  : option string :=
  match Map_get (symbol stock) (holdings this) with
  | Some shares =>
      if truthy shares then Some (portfolio_line this stock shares) else None
  | None => None
  end.
End WithNumber.
End StockMarket.

(** ** Kinds of asynchronous bodies *)

Module AsyncTraits.
Section WithPayload.
Context {T U : Type}.

(** A body that reaches an [await] before it ends, whatever the store. *)
Definition suspends (t : AsyncObservable.task U) : Prop :=
  forall s, exists step next,
    snd (AsyncObservable.advance t s) = AsyncObservable.Run step next.

(** A body that never ends in an exception: its promise is fulfilled. *)
Fixpoint fulfils (t : AsyncObservable.task U) : Prop :=
  match t with
  | AsyncObservable.Finish c => c = Normal tt
  | AsyncObservable.Run _ next => forall s, fulfils (next s)
  end.

(** An event that is no rejection. *)
Definition no_rejection (e : AsyncObservable.event T) : Prop :=
  match e with
  | AsyncObservable.Invoked _ _ => True
  | AsyncObservable.Settled _ c => c = Normal tt
  end.

(** From [m] to [m'] nothing was written on the console and no promise was
    rejected. *)
Definition clean (m m' : AsyncObservable.machine T U) : Prop :=
  AsyncObservable.console m' = AsyncObservable.console m /\
  exists tr,
    AsyncObservable.trace m' = AsyncObservable.trace m ++ tr /\
    Forall no_rejection tr.
End WithPayload.
End AsyncTraits.

(** ** [class AsyncProcessor] *)

Module AsyncProcessor.
Section WithMemory.
Context {T U : Type}.

Record AsyncProcessor : Type := mkAsyncProcessor {
  id : string;
  processingTime : nat
}.

(** [constructor(id, processingTime = 100)] *)
Definition new (id : string) (processingTime : option nat) : AsyncProcessor :=
  mkAsyncProcessor id
    (match processingTime with Some t => t | None => 100 end).

(** [async updateAsync(data) {
      console.log(...);
      await new Promise(resolve => setTimeout(resolve, this.processingTime));
      console.log(...); }]:
    two stretches that print and leave the store alone, with one [await]
    between them.  How long the timer takes is not part of the model. *)
Definition updateAsync (this : AsyncProcessor) (data : T)
  : AsyncObservable.task U :=
  AsyncObservable.Run (fun s => s)
    (fun _ => AsyncObservable.Run (fun s => s)
                (fun _ => AsyncObservable.Finish (Normal tt))).

Definition observer (this : AsyncProcessor)
  : AsyncObservable.AsyncObserver T U :=
  AsyncObservable.mkAsyncObserver (id this) (updateAsync this).
End WithMemory.
End AsyncProcessor.

(** ** More objects for the examples *)

Module Sample.

(** A subject on which two [EventLogger] objects can be registered. *)
Definition emitter (rs : list ref)
  : Observable.machine (Event nat) (EventLogger.memory (D := nat)) :=
  Observable.mkMachine
    (fold_left (fun s r => snd (Observable.addObserver r s)) rs
               (mkStore JSSet.empty (fun _ => [])))
    [] [] [].

(** [new EventFilter('ErrorFilter', ['error', 'warning'])] with the loggers
    [rs] subscribed to its emitter. *)
Definition logFilter (rs : list ref)
  : EventFilter.EventFilter nat (EventLogger.memory (D := nat)) :=
  EventFilter.mkEventFilter "ErrorFilter"
    (JSSet.of_list string_dec ["error"; "warning"]%string) (emitter rs).

(** Whole numbers stand for the numbers of the examples. *)
Definition of_decimal (s : string) : nat :=
  if String.eqb s "1" then 1
  else if String.eqb s "100" then 100
  else 0.

Definition reading (t p : nat) (now : nat)
  : Weather.WeatherData (number := nat) :=
  Weather.mkWeatherData t 50 p now.

(** A display that prints and touches nothing. *)
Definition display {T : Type} (id : string) : Observable.Observer T unit :=
  Observable.mkObserver id (fun _ s => (Normal tt, s)).

(** A station with the displays [rs] registered. *)
Definition station (rs : list ref)
  : Weather.WeatherStation (number := nat) unit :=
  Weather.mkWeatherStation
    (Observable.mkMachine
       (fold_left (fun s r => snd (Observable.addObserver r s)) rs
                  (mkStore JSSet.empty tt))
       [] [] [])
    (reading 20 1013 0).

Definition quote (symbol : string) (price change : nat)
  : StockMarket.StockData (number := nat) :=
  StockMarket.mkStockData symbol price change 0 1000 0.

(** [new AsyncProcessor('Processor', 100)] at every reference. *)
Definition processors (r : ref) : AsyncObservable.AsyncObserver nat unit :=
  AsyncProcessor.observer (AsyncProcessor.new "Processor" None).
End Sample.

(** * Facts *)

(** ** The built-in [Set] *)

Module JSSetFacts.
Section WithElem.
Context {A : Type} (eq_dec : forall x y : A, {x = y} + {x <> y}).
Implicit Types (s : JSSet.SetData (A := A)) (x y : A).

Local Abbreviation has := (JSSet.has eq_dec).
Local Abbreviation add := (JSSet.add eq_dec).
Local Abbreviation delete := (JSSet.delete eq_dec).
Local Abbreviation holds := (JSSet.holds eq_dec).

Lemma holds_true x e : holds x e = true <-> e = Some x.
Proof.
  destruct e as [y|]; simpl; [|split; discriminate].
  destruct (eq_dec x y); split; intros H; try congruence.
Qed.

Lemma holds_same x : holds x (Some x) = true.
Proof. apply holds_true; reflexivity. Qed.

Lemma has_In x s : has x s = true <-> In x (JSSet.elements s).
Proof.
  induction s as [|[y|] s IH]; simpl.
  - split; [discriminate | tauto].
  - rewrite orb_true_iff, IH. destruct (eq_dec x y); intuition congruence.
  - exact IH.
Qed.

Lemma has_false_In x s : has x s = false <-> ~ In x (JSSet.elements s).
Proof.
  rewrite <- has_In. destruct (has x s); split; congruence.
Qed.

Lemma has_app x s1 s2 : has x (s1 ++ s2) = has x s1 || has x s2.
Proof. apply existsb_app. Qed.

Lemma elements_app s1 s2 :
  JSSet.elements (s1 ++ s2) = JSSet.elements s1 ++ JSSet.elements s2.
Proof.
  induction s1 as [|[y|] s1 IH]; simpl; rewrite ?IH; reflexivity.
Qed.

Lemma size_elements s : JSSet.size s = length (JSSet.elements s).
Proof.
  unfold JSSet.size.
  induction s as [|[y|] s IH]; simpl; rewrite ?IH; reflexivity.
Qed.

Lemma has_add_same x s : has x (add x s) = true.
Proof.
  unfold JSSet.add. destruct (has x s) eqn:E; [exact E|].
  rewrite has_app. unfold JSSet.has at 2. cbn [existsb].
  rewrite holds_same, orb_true_r. reflexivity.
Qed.

(** The second of two [add]s of one value changes nothing. *)
Lemma add_idempotent x s : add x (add x s) = add x s.
Proof.
  unfold JSSet.add at 1. rewrite has_add_same. reflexivity.
Qed.

Lemma add_present x s : has x s = true -> add x s = s.
Proof. unfold JSSet.add. intros ->. reflexivity. Qed.

Lemma add_fresh x s : has x s = false -> add x s = s ++ [Some x].
Proof. unfold JSSet.add. intros ->. reflexivity. Qed.

Lemma size_add x s :
  JSSet.size (add x s) = if has x s then JSSet.size s else S (JSSet.size s).
Proof.
  unfold JSSet.add. destruct (has x s); [reflexivity|].
  rewrite !size_elements, elements_app, length_app. simpl. lia.
Qed.

Lemma delete_absent x s : has x s = false -> delete x s = (false, s).
Proof.
  unfold JSSet.delete. intros H. rewrite H. f_equal.
  induction s as [|e s IH]; simpl in *; [reflexivity|].
  apply orb_false_iff in H. destruct H as [H1 H2].
  rewrite H1, IH by exact H2. reflexivity.
Qed.

Lemma length_delete x s : length (snd (delete x s)) = length s.
Proof. simpl. apply length_map. Qed.

Lemma length_map_delete x s :
  length (map (fun e => if holds x e then None else e) s) = length s.
Proof. apply length_map. Qed.

Lemma length_clear s : length (JSSet.clear s) = length s.
Proof. apply length_map. Qed.

Lemma length_add x s : length s <= length (add x s).
Proof.
  unfold JSSet.add. destruct (has x s); [lia|].
  rewrite length_app. simpl. lia.
Qed.

Lemma elements_clear s : JSSet.elements (JSSet.clear s) = [].
Proof. induction s as [|e s IH]; simpl; [reflexivity | exact IH]. Qed.

Lemma elements_delete x s :
  JSSet.elements (snd (delete x s)) =
  filter (fun y => negb (if eq_dec x y then true else false))
         (JSSet.elements s).
Proof.
  simpl. induction s as [|[y|] s IH]; simpl; [reflexivity| |exact IH].
  destruct (eq_dec x y); simpl; rewrite IH; reflexivity.
Qed.

Lemma has_delete_same x s : has x (snd (delete x s)) = false.
Proof.
  apply has_false_In. rewrite elements_delete, filter_In.
  intros [_ H]. destruct (eq_dec x x); [discriminate | congruence].
Qed.

Lemma wf_empty : JSSet.wf (JSSet.empty (A := A)).
Proof. constructor. Qed.

Lemma wf_add x s : JSSet.wf s -> JSSet.wf (add x s).
Proof.
  unfold JSSet.wf, JSSet.add. intros H.
  destruct (has x s) eqn:E; [exact H|].
  rewrite elements_app. simpl.
  apply NoDup_app; [exact H | repeat constructor; simpl; tauto |].
  intros y Hy [<-|[]]. apply has_false_In in E. exact (E Hy).
Qed.

Lemma wf_delete x s : JSSet.wf s -> JSSet.wf (snd (delete x s)).
Proof.
  unfold JSSet.wf. rewrite elements_delete. apply NoDup_filter.
Qed.

Lemma wf_clear s : JSSet.wf (JSSet.clear s).
Proof. unfold JSSet.wf. rewrite elements_clear. constructor. Qed.

Lemma wf_of_list l : JSSet.wf (JSSet.of_list eq_dec l).
Proof.
  unfold JSSet.of_list. generalize wf_empty.
  generalize (JSSet.empty (A := A)).
  induction l as [|x l IH]; simpl; intros s H; [exact H|].
  apply IH, wf_add, H.
Qed.

Lemma has_add x y s :
  has x (add y s) = has x s || (if eq_dec x y then true else false).
Proof.
  unfold JSSet.add. destruct (has y s) eqn:E.
  - destruct (eq_dec x y) as [->|]; [rewrite E|]; rewrite ?orb_false_r;
      reflexivity.
  - rewrite has_app. unfold JSSet.has at 2. cbn [existsb JSSet.holds].
    rewrite orb_false_r. reflexivity.
Qed.

Lemma has_of_list x l :
  JSSet.has eq_dec x (JSSet.of_list eq_dec l) = true <-> In x l.
Proof.
  unfold JSSet.of_list.
  assert (G : forall s, has x (fold_left (fun s y => add y s) l s) = true
                        <-> has x s = true \/ In x l).
  { induction l as [|y l IH]; simpl; intros s; [tauto|].
    rewrite IH, has_add, orb_true_iff.
    destruct (eq_dec x y); intuition congruence. }
  rewrite G. simpl. intuition discriminate.
Qed.

Lemma skipn_nth (l : list (option A)) index :
  index < length l ->
  skipn index l = nth index l None :: skipn (S index) l.
Proof.
  revert index. induction l as [|e l IH]; simpl; intros index H; [lia|].
  destruct index as [|index]; [reflexivity|].
  apply IH. lia.
Qed.

Lemma NoDup_app_apart (l1 l2 : list A) :
  NoDup (l1 ++ l2) -> forall x, In x l1 -> In x l2 -> False.
Proof.
  induction l1 as [|y l1 IH]; simpl; intros N x H1 H2; [contradiction|].
  inversion N as [|? ? Hy N']; subst. destruct H1 as [->|H1].
  - apply Hy, in_or_app. auto.
  - exact (IH N' x H1 H2).
Qed.

Lemma elements_split x s :
  In x (JSSet.elements s) -> exists s1 s2, s = s1 ++ Some x :: s2.
Proof.
  induction s as [|[y|] s IH]; simpl; intros H; [tauto| |].
  - destruct H as [->|H]; [exists [], s; reflexivity|].
    destruct (IH H) as [s1 [s2 ->]]. exists (Some y :: s1), s2. reflexivity.
  - destruct (IH H) as [s1 [s2 ->]]. exists (None :: s1), s2. reflexivity.
Qed.

Lemma elements_In_nth s index x :
  nth index s None = Some x -> In x (JSSet.elements s).
Proof.
  revert index. induction s as [|[y|] s IH]; intros [|index] H; simpl in *;
    try discriminate; eauto.
  left. congruence.
Qed.

Lemma delete_app x s1 s2 :
  snd (delete x (s1 ++ s2)) = snd (delete x s1) ++ snd (delete x s2).
Proof. simpl. apply map_app. Qed.

Lemma delete_cons_other x y s :
  x <> y -> snd (delete x (Some y :: s)) = Some y :: snd (delete x s).
Proof.
  intros H. simpl. destruct (eq_dec x y); [contradiction | reflexivity].
Qed.

Lemma delete_blank k x :
  snd (delete x (repeat None k ++ [Some x])) = repeat None (S k).
Proof.
  rewrite delete_app. cbn [snd JSSet.delete map]. rewrite holds_same.
  replace (map _ (repeat None k)) with (repeat (@None A) k).
  - rewrite <- repeat_cons. reflexivity.
  - induction k; simpl; congruence.
Qed.

Lemma has_blank k x : has x (repeat None k) = false.
Proof. induction k; simpl; auto. Qed.

(** *** The walk *)

Section Walk.
Context {M : Type} (entries : M -> JSSet.SetData (A := A))
        (body : A -> M -> completion unit * M).

Local Abbreviation walk := (JSSet.walk entries body).
Local Abbreviation calm := (JSSet.calm entries body).
Local Abbreviation visit := (JSSet.visit body).

Lemma walk_end fuel index m :
  length (entries m) <= index -> walk fuel index m = (Some (Normal tt), m).
Proof.
  intros H. apply Nat.leb_le in H.
  destruct fuel; simpl; rewrite H; reflexivity.
Qed.

Lemma walk_empty_slot fuel index m :
  index < length (entries m) -> nth index (entries m) None = None ->
  walk (S fuel) index m = walk fuel (S index) m.
Proof.
  intros H E. apply Nat.leb_gt in H. simpl. rewrite H, E. reflexivity.
Qed.

Lemma walk_filled_slot fuel index m x :
  index < length (entries m) -> nth index (entries m) None = Some x ->
  walk (S fuel) index m =
  match body x m with
  | (Normal _, m') => walk fuel (S index) m'
  | (Throw e, m') => (Some (Throw e), m')
  end.
Proof.
  intros H E. apply Nat.leb_gt in H. simpl. rewrite H, E. reflexivity.
Qed.

(** A body that completes normally every time never makes the walk
    complete abruptly, whatever it does to the set. *)
Lemma walk_never_throws :
  (forall x m, fst (body x m) = Normal tt) ->
  forall fuel index m e, fst (walk fuel index m) <> Some (Throw e).
Proof.
  intros Hb. induction fuel as [|fuel IH]; intros index m e; simpl.
  - destruct (length (entries m) <=? index); simpl; discriminate.
  - destruct (length (entries m) <=? index); simpl; [discriminate|].
    destruct (nth index (entries m) None) as [x|]; [|apply IH].
    specialize (Hb x m). destruct (body x m) as [[[]|e'] m']; simpl in Hb;
      [apply IH | discriminate].
Qed.

(** When no turn makes the entry list longer, the walk ends within as
    many turns as there are entries ahead. *)
Lemma walk_returns :
  (forall x m, fst (body x m) = Normal tt) ->
  (forall x m, length (entries (snd (body x m))) <= length (entries m)) ->
  forall fuel index m,
    length (entries m) - index <= fuel ->
    fst (walk fuel index m) = Some (Normal tt).
Proof.
  intros Hb Hl. induction fuel as [|fuel IH]; intros index m H.
  - rewrite walk_end by lia. reflexivity.
  - destruct (Nat.le_gt_cases (length (entries m)) index) as [L|L].
    { rewrite walk_end by exact L. reflexivity. }
    destruct (nth index (entries m) None) as [x|] eqn:E.
    + rewrite (walk_filled_slot _ _ L E).
      specialize (Hb x m). specialize (Hl x m).
      destruct (body x m) as [[[]|e'] m']; simpl in *; [|discriminate].
      apply IH. lia.
    + rewrite (walk_empty_slot _ _ L E). apply IH. lia.
Qed.

Lemma visit_entries xs :
  Forall calm xs -> forall m, entries (visit xs m) = entries m.
Proof.
  induction 1 as [|x xs Hx _ IH]; simpl; intros m; [reflexivity|].
  rewrite IH. apply Hx.
Qed.

Lemma visit_app xs ys m : visit (xs ++ ys) m = visit ys (visit xs m).
Proof. apply fold_left_app. Qed.

(** Across [n] slots whose values are all calm the walk is a fold. *)
Lemma walk_calm_stretch n :
  forall fuel index m,
    index + n <= length (entries m) ->
    Forall calm (JSSet.elements (firstn n (skipn index (entries m)))) ->
    walk (n + fuel) index m =
    walk fuel (index + n)
         (visit (JSSet.elements (firstn n (skipn index (entries m)))) m).
Proof.
  induction n as [|n IH]; intros fuel index m H C.
  - simpl. rewrite Nat.add_0_r. reflexivity.
  - assert (L : index < length (entries m)) by lia.
    rewrite (skipn_nth _ L) in C |- *. cbn [firstn] in C |- *.
    replace (index + S n) with (S index + n) by lia.
    destruct (nth index (entries m) None) as [x|] eqn:E.
    + cbn [JSSet.elements] in C |- *. inversion C as [|? ? Cx C']; subst.
      cbn [Nat.add]. rewrite (walk_filled_slot _ _ L E).
      destruct (Cx m) as [Cn Ce]. cbn [JSSet.visit fold_left].
      destruct (body x m) as [[[]|e'] m']; simpl in Cn, Ce |- *;
        [|discriminate].
      rewrite <- Ce in C' |- *. apply IH; [rewrite Ce; lia | exact C'].
    + cbn [JSSet.elements] in C |- *. cbn [Nat.add].
      rewrite (walk_empty_slot _ _ L E). apply IH; [lia | exact C].
Qed.

(** With calm values only, the walk visits the values in entry order,
    each once, and ends. *)
Lemma walk_calm fuel m :
  Forall calm (JSSet.elements (entries m)) ->
  length (entries m) <= fuel ->
  walk fuel 0 m = (Some (Normal tt), visit (JSSet.elements (entries m)) m).
Proof.
  intros C H.
  replace fuel with (length (entries m) + (fuel - length (entries m)))
    by lia.
  rewrite walk_calm_stretch.
  - simpl. rewrite firstn_all. apply walk_end.
    rewrite visit_entries; [lia | exact C].
  - simpl. lia.
  - simpl. rewrite firstn_all. exact C.
Qed.

(** Two stretches of calm values with one turn of another value [a] between
    them: the walk is the fold over the first stretch, the turn of [a], and
    the fold over what the entries hold behind [a] after that turn. *)
Lemma walk_one_active fuel m s1 a s2 t1 t2 :
  entries m = s1 ++ Some a :: s2 ->
  Forall calm (JSSet.elements s1) ->
  fst (body a (visit (JSSet.elements s1) m)) = Normal tt ->
  entries (snd (body a (visit (JSSet.elements s1) m))) = t1 ++ t2 ->
  length t1 = S (length s1) ->
  Forall calm (JSSet.elements t2) ->
  length t1 + length t2 <= fuel ->
  walk fuel 0 m =
  (Some (Normal tt),
   visit (JSSet.elements t2) (snd (body a (visit (JSSet.elements s1) m)))).
Proof.
  intros E C1 N E1 L1 C2 F.
  replace fuel with (length s1 + S (length t2 + (fuel - length t1 - length t2)))
    by lia.
  assert (P1 : firstn (length s1) (skipn 0 (entries m)) = s1).
  { simpl. rewrite E, firstn_app, Nat.sub_diag, firstn_all. simpl.
    apply app_nil_r. }
  rewrite walk_calm_stretch; rewrite ?P1; try exact C1;
    [|rewrite E, length_app; simpl; lia].
  set (m0 := visit (JSSet.elements s1) m) in *.
  assert (E0 : entries m0 = s1 ++ Some a :: s2).
  { unfold m0. rewrite visit_entries; assumption. }
  simpl (0 + _).
  rewrite (@walk_filled_slot _ _ m0 a).
  - destruct (body a m0) as [[[]|e] m1]; simpl in N, E1 |- *; [|discriminate].
    assert (P2 : firstn (length t2) (skipn (S (length s1)) (entries m1)) = t2).
    { rewrite E1, <- L1, skipn_app, Nat.sub_diag, skipn_all. simpl.
      apply firstn_all. }
    rewrite walk_calm_stretch; rewrite ?P2; try exact C2;
      [|rewrite E1, length_app; lia].
    apply walk_end. rewrite visit_entries by exact C2.
    rewrite E1, length_app. lia.
  - rewrite E0, length_app. simpl. lia.
  - rewrite E0. apply nth_middle.
Qed.

(** Behind a stretch of calm values the walk reaches the next value with
    the entries as they were. *)
Lemma walk_reaches fuel m s1 b s2 :
  entries m = s1 ++ Some b :: s2 ->
  Forall calm (JSSet.elements s1) ->
  walk (length s1 + S fuel) 0 m =
  match body b (visit (JSSet.elements s1) m) with
  | (Normal _, m') => walk fuel (S (length s1)) m'
  | (Throw e, m') => (Some (Throw e), m')
  end.
Proof.
  intros E C.
  assert (P1 : firstn (length s1) (skipn 0 (entries m)) = s1).
  { simpl. rewrite E, firstn_app, Nat.sub_diag, firstn_all. simpl.
    apply app_nil_r. }
  rewrite walk_calm_stretch; rewrite ?P1; try exact C;
    [|rewrite E, length_app; simpl; lia].
  assert (E0 : entries (visit (JSSet.elements s1) m) = s1 ++ Some b :: s2).
  { rewrite visit_entries; assumption. }
  simpl (0 + _).
  apply walk_filled_slot.
  - rewrite E0, length_app. simpl. lia.
  - rewrite E0. apply nth_middle.
Qed.

(** With calm values only, a walk leaves the entries as they are, however
    far it gets. *)
Lemma walk_calm_entries fuel :
  forall index m,
    Forall calm (JSSet.elements (entries m)) ->
    entries (snd (walk fuel index m)) = entries m.
Proof.
  induction fuel as [|fuel IH]; intros index m C; simpl.
  - destruct (length (entries m) <=? index); reflexivity.
  - destruct (length (entries m) <=? index); [reflexivity|].
    destruct (nth index (entries m) None) as [x|] eqn:E; [|apply IH, C].
    apply elements_In_nth in E.
    destruct (proj1 (Forall_forall _ _) C x E m) as [N Ee].
    destruct (body x m) as [[[]|e] m']; simpl in N, Ee; [|discriminate].
    rewrite IH; [exact Ee | rewrite Ee; exact C].
Qed.
End Walk.
End WithElem.
End JSSetFacts.

(** ** [Observable] *)

Module ObservableFacts.
Section WithPayload.
Context {T U : Type} (obj : ref -> Observable.Observer T U).
Implicit Types (m : Observable.machine T U) (d : T) (r : ref).

Local Abbreviation entries :=
  (fun m : Observable.machine T U => observers (Observable.mem m)).
Local Abbreviation notify_one := (Observable.notify_one obj).
Local Abbreviation walk d := (JSSet.walk entries (notify_one d)).

(** The [try]/[catch] around [observer.update(data)] turns every completion
    into a normal one. *)
Lemma notify_one_normal d r m : fst (notify_one d r m) = Normal tt.
Proof.
  unfold Observable.notify_one, try_catch, Observable.call_update.
  destruct (Observable.update (obj r) d (Observable.mem m)) as [[[]|e] s'];
    reflexivity.
Qed.

Lemma notify_one_calls d r m :
  Observable.calls (snd (notify_one d r m)) = Observable.calls m ++ [(r, d)].
Proof.
  unfold Observable.notify_one, try_catch, Observable.call_update.
  destruct (Observable.update (obj r) d (Observable.mem m)) as [[[]|e] s'];
    reflexivity.
Qed.

Lemma notify_one_mem d r m :
  Observable.mem (snd (notify_one d r m)) =
  snd (Observable.update (obj r) d (Observable.mem m)).
Proof.
  unfold Observable.notify_one, try_catch, Observable.call_update.
  destruct (Observable.update (obj r) d (Observable.mem m)) as [[[]|e] s'];
    reflexivity.
Qed.

Lemma notify_one_notified d r m :
  Observable.notified (snd (notify_one d r m)) = Observable.notified m.
Proof.
  unfold Observable.notify_one, try_catch, Observable.call_update.
  destruct (Observable.update (obj r) d (Observable.mem m)) as [[[]|e] s'];
    reflexivity.
Qed.

Lemma notify_one_console d r m :
  Observable.console (snd (notify_one d r m)) =
  Observable.console m ++
  match fst (Observable.update (obj r) d (Observable.mem m)) with
  | Normal _ => []
  | Throw e => [Observable.error_line obj r e]
  end.
Proof.
  unfold Observable.notify_one, try_catch, Observable.call_update.
  destruct (Observable.update (obj r) d (Observable.mem m)) as [[[]|e] s'];
    simpl; rewrite ?app_nil_r; reflexivity.
Qed.

Lemma quiet_calm d r :
  Observable.quiet (obj r) -> JSSet.calm entries (notify_one d) r.
Proof.
  intros Q m. split; [apply notify_one_normal|].
  rewrite notify_one_mem. apply Q.
Qed.

Lemma visit_calls d rs :
  forall m, Observable.calls (JSSet.visit (notify_one d) rs m) =
            Observable.calls m ++ map (fun r => (r, d)) rs.
Proof.
  induction rs as [|r rs IH]; simpl; intros m.
  - rewrite app_nil_r. reflexivity.
  - rewrite IH, notify_one_calls, <- app_assoc. reflexivity.
Qed.

Lemma visit_notified d rs :
  forall m, Observable.notified (JSSet.visit (notify_one d) rs m) =
            Observable.notified m.
Proof.
  induction rs as [|r rs IH]; simpl; intros m; [reflexivity|].
  rewrite IH. apply notify_one_notified.
Qed.

(** Whatever the callbacks do, a walk only adds to what was recorded: calls
    with the payload of this walk, and lines on the console. *)
Lemma walk_extends d fuel :
  forall index m,
    let m' := snd (walk d fuel index m) in
    (exists cs, Observable.calls m' = Observable.calls m ++ cs /\
                Forall (fun c => snd c = d) cs) /\
    (exists ls, Observable.console m' = Observable.console m ++ ls) /\
    Observable.notified m' = Observable.notified m.
Proof.
  induction fuel as [|fuel IH]; intros index m; simpl.
  - destruct (length (entries m) <=? index); simpl;
      (split; [exists []|split; [exists []|]]); rewrite ?app_nil_r; auto.
  - destruct (length (entries m) <=? index); simpl.
    { (split; [exists []|split; [exists []|]]); rewrite ?app_nil_r; auto. }
    destruct (nth index (entries m) None) as [r|]; [|apply IH].
    pose proof (notify_one_normal d r m) as N.
    pose proof (notify_one_calls d r m) as C.
    pose proof (notify_one_console d r m) as L.
    pose proof (notify_one_notified d r m) as E.
    destruct (notify_one d r m) as [[[]|e] m1]; simpl in N, C, L, E;
      [|discriminate].
    destruct (IH (S index) m1) as [[cs [Hc Hf]] [[ls Hl] Hn]].
    split; [|split].
    + exists ((r, d) :: cs). split; [|constructor; auto].
      rewrite Hc, C, <- app_assoc. reflexivity.
    + eexists. rewrite Hl, L, <- app_assoc. reflexivity.
    + rewrite Hn. exact E.
Qed.

Lemma received_app r (cs1 cs2 : list (ref * T)) :
  Observable.received r (cs1 ++ cs2) =
  Observable.received r cs1 ++ Observable.received r cs2.
Proof.
  unfold Observable.received. rewrite filter_app, map_app. reflexivity.
Qed.

(** Among calls made one per value of a duplicate-free list, a value of the
    list gets one and any other none. *)
Lemma received_one_each r d (rs : list ref) :
  NoDup rs ->
  Observable.received r (map (fun x => (x, d)) rs) =
  if JSSet.has ref_dec r (map Some rs) then [d] else [].
Proof.
  unfold Observable.received.
  induction 1 as [|x rs Hx Hn IH]; simpl; [reflexivity|].
  destruct (ref_dec r x) as [->|Hne]; simpl.
  - rewrite Nat.eqb_refl. simpl. f_equal.
    rewrite IH.
    destruct (JSSet.has ref_dec x (map Some rs)) eqn:E; [|reflexivity].
    exfalso. apply Hx. apply JSSetFacts.has_In in E.
    clear -E. induction rs as [|y rs IH]; simpl in *; tauto.
  - apply Nat.eqb_neq in Hne. rewrite Hne. exact IH.
Qed.

Lemma has_elements r (s : JSSet.SetData (A := ref)) :
  JSSet.has ref_dec r (map Some (JSSet.elements s)) = JSSet.has ref_dec r s.
Proof.
  induction s as [|[y|] s IH]; simpl; rewrite ?IH; reflexivity.
Qed.

Lemma visit_console_grows d rs :
  forall m, exists ls,
    Observable.console (JSSet.visit (notify_one d) rs m) =
    Observable.console m ++ ls.
Proof.
  induction rs as [|r rs IH]; simpl; intros m.
  - exists []. rewrite app_nil_r. reflexivity.
  - destruct (IH (snd (notify_one d r m))) as [ls H].
    eexists. rewrite H, notify_one_console, <- app_assoc. reflexivity.
Qed.

(** The turn of an observer that always throws leaves the line of the
    [catch] on the console. *)
Lemma visit_reports d a rs :
  In a rs -> Observable.always_throws (obj a) ->
  forall m, exists e,
    In (Observable.error_line obj a e)
       (Observable.console (JSSet.visit (notify_one d) rs m)).
Proof.
  intros Ha Th. induction rs as [|r rs IH]; simpl; intros m; [contradiction|].
  destruct Ha as [->|Ha]; [|apply IH, Ha].
  destruct (Th d (Observable.mem m)) as [e He]. exists e.
  destruct (visit_console_grows d rs (snd (notify_one d a m))) as [ls H].
  rewrite H, notify_one_console, He.
  apply in_or_app. left. apply in_or_app. right. left. reflexivity.
Qed.
End WithPayload.
End ObservableFacts.

(** ** [AsyncObservable] *)

Module AsyncFacts.
Import AsyncObservable.
Section WithPayload.
Context {T U : Type} (obj : ref -> AsyncObserver T U).
Implicit Types (m : machine T U) (d : T) (r : ref) (c : completion unit).

Local Abbreviation entries := (fun m : machine T U => observers (mem m)).

Lemma invocations_app (tr1 tr2 : list (event T)) :
  invocations (tr1 ++ tr2) = invocations tr1 ++ invocations tr2.
Proof.
  induction tr1 as [|[r d|r c] tr1 IH]; simpl; rewrite ?IH; reflexivity.
Qed.

Lemma settlements_app (tr1 tr2 : list (event T)) :
  settlements (tr1 ++ tr2) = settlements tr1 ++ settlements tr2.
Proof.
  induction tr1 as [|[r d|r c] tr1 IH]; simpl; rewrite ?IH; reflexivity.
Qed.

(** The [catch] makes the arrow function's promise fulfilled in every
    case. *)
Lemma settle_normal r c m : fst (settle obj r c m) = Normal tt.
Proof. destruct c as [[]|e]; reflexivity. Qed.

Lemma settle_trace r c m :
  trace (snd (settle obj r c m)) = trace m ++ [Settled r c].
Proof. destruct c as [[]|e]; reflexivity. Qed.

Lemma settle_mem r c m : mem (snd (settle obj r c m)) = mem m.
Proof. destruct c as [[]|e]; reflexivity. Qed.

Lemma settle_console r c m :
  console (snd (settle obj r c m)) =
  console m ++ match c with
               | Normal _ => []
               | Throw e => [error_line obj r e]
               end.
Proof. destruct c as [[]|e]; simpl; rewrite ?app_nil_r; reflexivity. Qed.

(** *** One after the other *)

Lemma sequential_one_normal d r m : fst (sequential_one obj d r m) = Normal tt.
Proof.
  unfold sequential_one, try_catch, await_update.
  destruct (run_task (updateAsync (obj r) d) (mem (record (Invoked r d) m)))
    as [[[]|e] s']; reflexivity.
Qed.

Lemma sequential_one_trace d r m :
  trace (snd (sequential_one obj d r m)) =
  trace m ++ [Invoked r d;
              Settled r (fst (run_task (updateAsync (obj r) d) (mem m)))].
Proof.
  unfold sequential_one, try_catch, await_update. simpl.
  destruct (run_task (updateAsync (obj r) d) (mem m)) as [[[]|e] s']; simpl;
    rewrite <- app_assoc; reflexivity.
Qed.

Lemma sequential_one_mem d r m :
  mem (snd (sequential_one obj d r m)) =
  snd (run_task (updateAsync (obj r) d) (mem m)).
Proof.
  unfold sequential_one, try_catch, await_update. simpl.
  destruct (run_task (updateAsync (obj r) d) (mem m)) as [[[]|e] s'];
    reflexivity.
Qed.

Lemma sequential_one_console d r m :
  console (snd (sequential_one obj d r m)) =
  console m ++ match fst (run_task (updateAsync (obj r) d) (mem m)) with
               | Normal _ => []
               | Throw e => [error_line obj r e]
               end.
Proof.
  unfold sequential_one, try_catch, await_update. simpl.
  destruct (run_task (updateAsync (obj r) d) (mem m)) as [[[]|e] s']; simpl;
    rewrite ?app_nil_r; reflexivity.
Qed.

(** A relation that every stretch of a body keeps, and that is reflexive
    and transitive, relates the store before the body to the store after
    it. *)
Lemma run_task_keeps (P : store U -> store U -> Prop) :
  (forall s, P s s) -> (forall s1 s2 s3, P s1 s2 -> P s2 s3 -> P s1 s3) ->
  forall t s, task_keeps P t -> P s (snd (run_task t s)).
Proof.
  intros Prefl Ptrans. induction t as [c|step next IH]; simpl; intros s K.
  - apply Prefl.
  - destruct K as [K1 K2]. eapply Ptrans; [apply K1|]. apply IH, K2.
Qed.

Lemma quiet_run d r s :
  quiet (obj r) -> observers (snd (run_task (updateAsync (obj r) d) s)) = observers s.
Proof.
  intros Q.
  apply (run_task_keeps (fun s s' => observers s' = observers s));
    [reflexivity | intros; congruence | apply Q].
Qed.

Lemma registers_nobody_run d r s :
  registers_nobody (obj r) ->
  length (observers (snd (run_task (updateAsync (obj r) d) s))) <=
  length (observers s).
Proof.
  intros Q.
  apply (run_task_keeps
           (fun s s' => length (observers s') <= length (observers s)));
    [intros; lia | intros; lia | apply Q].
Qed.

Lemma quiet_task_calm d r :
  quiet (obj r) -> JSSet.calm entries (sequential_one obj d) r.
Proof.
  intros Q m. split; [apply sequential_one_normal|].
  rewrite sequential_one_mem. apply quiet_run, Q.
Qed.

(** Whatever the observers do, the trace of a sequential notification is a
    run of turns. *)
Lemma sequential_walk_turns d fuel :
  forall index m,
  exists visits,
    trace (snd (JSSet.walk entries (sequential_one obj d) fuel index m)) =
    trace m ++ turns d visits.
Proof.
  induction fuel as [|fuel IH]; intros index m; simpl.
  - exists []. destruct (length (entries m) <=? index); simpl;
      rewrite app_nil_r; reflexivity.
  - destruct (length (entries m) <=? index); simpl.
    { exists []. simpl. rewrite app_nil_r. reflexivity. }
    destruct (nth index (entries m) None) as [r|]; [|apply IH].
    pose proof (sequential_one_normal d r m) as N.
    pose proof (sequential_one_trace d r m) as E.
    destruct (sequential_one obj d r m) as [[[]|e] m1]; simpl in N, E;
      [|discriminate].
    destruct (IH (S index) m1) as [visits Hv].
    exists ((r, fst (run_task (updateAsync (obj r) d) (mem m))) :: visits).
    rewrite Hv, E, <- app_assoc. reflexivity.
Qed.

Lemma turns_one_at_a_time d visits : one_at_a_time (turns d visits).
Proof.
  induction visits as [|[r0 c0] visits IH]; intros before r d' after E.
  - destruct before; discriminate.
  - simpl in E. destruct before as [|e1 before]; [reflexivity|].
    inversion E as [[E1 E2]]. subst e1.
    destruct before as [|e2 before]; [discriminate|].
    inversion E2 as [[E3 E4]]. subst e2. simpl.
    f_equal. exact (IH before r d' after E4).
Qed.
(** *** All at once *)

Lemma start_one_spec d r m :
  exists tr,
    trace (snd (start_one obj d r m)) = trace m ++ Invoked r d :: tr /\
    invocations tr = [] /\
    match fst (start_one obj d r m) with
    | inl cw => cw = Normal tt /\ settlements tr = [r]
    | inr q => fst q = r /\ settlements tr = []
    end.
Proof.
  unfold start_one. simpl.
  destruct (advance (updateAsync (obj r) d) (mem m)) as [s' [c|step next]].
  - exists [Settled r c]. destruct c as [[]|e]; simpl;
      rewrite <- app_assoc; auto.
  - exists []. simpl. auto.
Qed.

Lemma start_all_spec d snapshot :
  forall m done flying m',
    start_all obj d snapshot m = (done, flying, m') ->
    first_rejection done = None /\
    exists tr,
      trace m' = trace m ++ tr /\
      invocations tr = map (fun r => (r, d)) snapshot /\
      Permutation (settlements tr ++ map fst flying) snapshot.
Proof.
  induction snapshot as [|r rest IH]; simpl; intros m done flying m' E.
  - inversion E; subst. split; [reflexivity|]. exists [].
    rewrite app_nil_r. auto.
  - pose proof (start_one_spec d r m) as [tr1 [T1 [I1 R1]]].
    destruct (start_one obj d r m) as [res m1].
    destruct (start_all obj d rest m1) as [[done1 flying1] m2] eqn:E2.
    destruct (IH _ _ _ _ E2) as [F2 [tr2 [T2 [I2 P2]]]].
    simpl in T1, R1.
    destruct res as [cw|q]; inversion E; subst; destruct R1 as [R1a R1b].
    + split; [rewrite R1a; exact F2|]. exists (Invoked r d :: tr1 ++ tr2).
      split; [|split].
      * rewrite T2, T1, <- app_assoc. reflexivity.
      * simpl. rewrite invocations_app, I1, I2. reflexivity.
      * simpl. rewrite settlements_app, R1b. simpl.
        apply perm_skip, P2.
    + split; [exact F2|]. exists (Invoked r d :: tr1 ++ tr2).
      split; [|split].
      * rewrite T2, T1, <- app_assoc. reflexivity.
      * simpl. rewrite invocations_app, I1, I2. reflexivity.
      * simpl. rewrite settlements_app, R1b, R1a. simpl.
        symmetry. apply Permutation_cons_app. symmetry. exact P2.
Qed.

Lemma resume_head_spec r t rest m p' done m' :
  resume_head obj r t rest m = (p', done, m') ->
  first_rejection done = None /\
  exists tr,
    trace m' = trace m ++ tr /\
    invocations tr = [] /\
    Permutation (settlements tr ++ map fst p') (r :: map fst rest).
Proof.
  unfold resume_head.
  destruct (advance t (mem m)) as [s' [c|step next]].
  - pose proof (settle_normal r c (set_mem s' m)) as N.
    pose proof (settle_trace r c (set_mem s' m)) as E.
    destruct (settle obj r c (set_mem s' m)) as [cw m2]. simpl in N, E.
    intros H. inversion H; subst. split; [reflexivity|].
    exists [Settled r c]. simpl. auto.
  - intros H. inversion H; subst. split; [reflexivity|].
    exists []. simpl. rewrite app_nil_r. auto.
Qed.

Lemma resume_spec p :
  forall i m p' done m',
    resume obj i p m = (p', done, m') ->
    first_rejection done = None /\
    exists tr,
      trace m' = trace m ++ tr /\
      invocations tr = [] /\
      Permutation (settlements tr ++ map fst p') (map fst p).
Proof.
  induction p as [|[r t] rest IH]; intros i m p' done m' E; simpl in E.
  - inversion E; subst. split; [reflexivity|]. exists [].
    rewrite app_nil_r. auto.
  - destruct i as [|j]; [exact (resume_head_spec _ _ _ _ E)|].
    destruct rest as [|q rest']; [exact (resume_head_spec _ _ _ _ E)|].
    destruct (resume obj j (q :: rest') m) as [[rest'' done1] m1] eqn:E1.
    inversion E; subst.
    destruct (IH _ _ _ _ _ E1) as [F [tr [Tr [I P]]]].
    split; [exact F|]. exists tr. split; [exact Tr|]. split; [exact I|].
    simpl. symmetry. apply Permutation_cons_app. symmetry. exact P.
Qed.

Lemma Promise_all_spec sched :
  forall settled p m res m',
    first_rejection settled = None ->
    Promise_all obj sched settled p m = (res, m') ->
    (forall e, res <> Some (Throw e)) /\
    exists tr,
      trace m' = trace m ++ tr /\
      invocations tr = [] /\
      (res <> None -> Permutation (settlements tr) (map fst p)).
Proof.
  induction sched as [|i sched IH]; intros settled p m res m' F E;
    simpl in E; rewrite F in E.
  - destruct p as [|q p]; inversion E; subst;
      (split; [discriminate|]); exists []; rewrite app_nil_r;
      repeat split; auto; congruence.
  - destruct p as [|q p].
    { inversion E; subst. split; [discriminate|]. exists [].
      rewrite app_nil_r. auto. }
    destruct (resume obj i (q :: p) m) as [[p1 done1] m1] eqn:E1.
    destruct (resume_spec _ _ _ E1) as [F1 [tr1 [T1 [I1 P1]]]].
    destruct (IH _ _ _ _ _ F1 E) as [N [tr2 [T2 [I2 P2]]]].
    split; [exact N|]. exists (tr1 ++ tr2). split; [|split].
    + rewrite T2, T1, <- app_assoc. reflexivity.
    + rewrite invocations_app, I1, I2. reflexivity.
    + intros R. rewrite settlements_app.
      rewrite <- P1. apply Permutation_app_head, P2, R.
Qed.

(** What one parallel notification does, whatever the observers and the
    scheduler do: it invokes the observers of the snapshot, in entry order;
    it is never rejected; and when it completes every one of them has
    settled. *)
Lemma notify_parallel_spec sched d m res m' :
  notifyObservers obj sched d m = (res, m') ->
  (forall e, res <> Some (Throw e)) /\
  exists tr,
    trace m' = trace m ++ tr /\
    invocations tr = map (fun r => (r, d)) (JSSet.elements (observers (mem m))) /\
    (res <> None ->
     Permutation (settlements tr) (JSSet.elements (observers (mem m)))).
Proof.
  unfold notifyObservers.
  destruct (start_all obj d (JSSet.elements (observers (mem m))) m)
    as [[done flying] m1] eqn:E1.
  destruct (start_all_spec _ _ _ E1) as [F1 [tr1 [T1 [I1 P1]]]].
  intros E. destruct (Promise_all_spec _ _ _ _ F1 E) as [N [tr2 [T2 [I2 P2]]]].
  split; [exact N|]. exists (tr1 ++ tr2). split; [|split].
  - rewrite T2, T1, <- app_assoc. reflexivity.
  - rewrite invocations_app, I1, I2, app_nil_r. reflexivity.
  - intros R. rewrite settlements_app, <- P1.
    apply Permutation_app_head, P2, R.
Qed.
(** *** What every body keeps, the notification keeps *)

Section Keeps.
Variable P : store U -> store U -> Prop.
Hypothesis Prefl : forall s, P s s.
Hypothesis Ptrans : forall s1 s2 s3, P s1 s2 -> P s2 s3 -> P s1 s3.

Local Abbreviation keeps := (fun q : ref * task U => task_keeps P (snd q)).

Lemma advance_keeps (t : task U) s :
  task_keeps P t ->
  P s (fst (advance t s)) /\ task_keeps P (snd (advance t s)).
Proof.
  destruct t as [c|step next]; simpl; intros K; [auto|].
  destruct K; auto.
Qed.

Lemma start_one_keeps d r m :
  task_keeps P (updateAsync (obj r) d) ->
  P (mem m) (mem (snd (start_one obj d r m))) /\
  match fst (start_one obj d r m) with
  | inl _ => True
  | inr q => keeps q
  end.
Proof.
  intros K. unfold start_one. simpl.
  destruct (@advance_keeps _ (mem m) K) as [K1 K2].
  destruct (advance (updateAsync (obj r) d) (mem m)) as [s' [c|step next]];
    simpl in K1, K2.
  - destruct c as [[]|e]; simpl; auto.
  - simpl. auto.
Qed.

Lemma start_all_keeps d snapshot :
  Forall (fun r => task_keeps P (updateAsync (obj r) d)) snapshot ->
  forall m done flying m',
    start_all obj d snapshot m = (done, flying, m') ->
    P (mem m) (mem m') /\ Forall keeps flying.
Proof.
  induction 1 as [|r rest K _ IH]; simpl; intros m done flying m' E.
  - inversion E; subst. auto.
  - destruct (start_one_keeps d r m K) as [K1 K2].
    destruct (start_one obj d r m) as [res m1].
    destruct (start_all obj d rest m1) as [[done1 flying1] m2] eqn:E2.
    destruct (IH _ _ _ _ E2) as [K3 K4]. simpl in K1, K2.
    destruct res as [cw|q]; inversion E; subst; split; eauto.
Qed.

Lemma resume_head_keeps r t rest m p' done m' :
  task_keeps P t -> Forall keeps rest ->
  resume_head obj r t rest m = (p', done, m') ->
  P (mem m) (mem m') /\ Forall keeps p'.
Proof.
  intros K Kr. unfold resume_head.
  destruct (@advance_keeps _ (mem m) K) as [K1 K2].
  destruct (advance t (mem m)) as [s' [c|step next]]; simpl in K1, K2.
  - destruct c as [[]|e]; simpl; intros H; inversion H; subst; auto.
  - intros H; inversion H; subst. auto.
Qed.

Lemma resume_keeps p :
  Forall keeps p ->
  forall i m p' done m',
    resume obj i p m = (p', done, m') ->
    P (mem m) (mem m') /\ Forall keeps p'.
Proof.
  induction 1 as [|[r t] rest K Kr IH]; intros i m p' done m' E; simpl in E.
  - inversion E; subst. auto.
  - destruct i as [|j]; [exact (resume_head_keeps _ _ _ K Kr E)|].
    destruct rest as [|q rest']; [exact (resume_head_keeps _ _ _ K Kr E)|].
    destruct (resume obj j (q :: rest') m) as [[rest'' done1] m1] eqn:E1.
    inversion E; subst.
    destruct (IH _ _ _ _ _ E1) as [K1 K2]. auto.
Qed.

Lemma Promise_all_keeps sched :
  forall settled p m,
    Forall keeps p ->
    P (mem m) (mem (snd (Promise_all obj sched settled p m))).
Proof.
  induction sched as [|i sched IH]; intros settled p m K; cbn [Promise_all];
    destruct (first_rejection settled); cbn [snd]; auto.
  - destruct p; cbn [snd]; auto.
  - destruct p as [|q p]; cbn [snd]; auto.
    destruct (resume obj i (q :: p) m) as [[p1 done1] m1] eqn:E1.
    destruct (resume_keeps K _ _ E1) as [K1 K2].
    eapply Ptrans; [exact K1|]. apply IH, K2.
Qed.

Lemma notify_parallel_keeps sched d m :
  Forall (fun r => task_keeps P (updateAsync (obj r) d))
         (JSSet.elements (observers (mem m))) ->
  P (mem m) (mem (snd (notifyObservers obj sched d m))).
Proof.
  intros K. unfold notifyObservers.
  destruct (start_all obj d (JSSet.elements (observers (mem m))) m)
    as [[done flying] m1] eqn:E1.
  destruct (@start_all_keeps _ _ K _ _ _ _ E1) as [K1 K2].
  eapply Ptrans; [exact K1|]. apply Promise_all_keeps, K2.
Qed.
End Keeps.

(** *** Every parallel notification completes *)

Lemma resume_behind j r (t : task U) q rest m :
  resume obj (S j) ((r, t) :: q :: rest) m =
  let '(rest', done, m') := resume obj j (q :: rest) m in
  ((r, t) :: rest', done, m').
Proof. reflexivity. Qed.

Lemma finishes_behind r (t : task U) :
  (forall rest, finishes obj rest ->
                forall m, finishes obj (fst (fst (resume_head obj r t rest m)))) ->
  forall rest, finishes obj rest -> finishes obj ((r, t) :: rest).
Proof.
  intros Hhead rest Hrest.
  induction Hrest as [|rest H IH]; apply finishes_step; intros i m.
  - destruct i; cbn [resume]; apply Hhead; constructor.
  - destruct i as [|j];
      [cbn [resume]; apply Hhead; apply finishes_step, H|].
    destruct rest as [|q rest'];
      [cbn [resume]; apply Hhead; apply finishes_step, H|].
    specialize (IH j m). rewrite resume_behind.
    destruct (resume obj j (q :: rest') m) as [[rest'' done1] m1].
    exact IH.
Qed.

Lemma finishes_cons r (t : task U) :
  forall rest, finishes obj rest -> finishes obj ((r, t) :: rest).
Proof.
  induction t as [c|step next IHt]; apply finishes_behind;
    intros rest Hrest m; unfold resume_head; simpl.
  - destruct (settle obj r c (set_mem (mem m) m)). exact Hrest.
  - destruct (next (mem m)) as [c|step' next'] eqn:E.
    + destruct (settle obj r c (set_mem (step (mem m)) m)). exact Hrest.
    + simpl. rewrite <- E. apply IHt, Hrest.
Qed.

Lemma all_finish (p : pool) : finishes obj p.
Proof.
  induction p as [|[r t] rest IH]; [constructor|].
  apply finishes_cons, IH.
Qed.

Lemma Promise_all_settled sched settled (p : pool) m :
  first_rejection settled = None ->
  Promise_all obj sched settled p m = Promise_all obj sched [] p m.
Proof. intros F. destruct sched; simpl; rewrite F; reflexivity. Qed.

(** Along every endless sequence of scheduler choices there is a moment at
    which [Promise.all] is fulfilled. *)
Lemma Promise_all_completes (choose : nat -> nat) (p : pool) :
  finishes obj p ->
  forall k m,
  exists n,
    fst (Promise_all obj (map choose (seq k n)) [] p m) = Some (Normal tt).
Proof.
  induction 1 as [|p H IH]; intros k m.
  - exists 0. reflexivity.
  - destruct p as [|q p]; [exists 0; reflexivity|].
    destruct (resume obj (choose k) (q :: p) m) as [[p1 done1] m1] eqn:E1.
    destruct (resume_spec _ _ _ E1) as [F1 _].
    specialize (IH (choose k) m (S k) m1). rewrite E1 in IH. simpl in IH.
    destruct IH as [n Hn]. exists (S n).
    cbn [seq map Promise_all first_rejection]. rewrite E1.
    rewrite Promise_all_settled by exact F1. exact Hn.
Qed.

Lemma notify_parallel_completes (choose : nat -> nat) d m :
  exists n,
    fst (notifyObservers obj (map choose (seq 0 n)) d m) = Some (Normal tt).
Proof.
  unfold notifyObservers.
  destruct (start_all obj d (JSSet.elements (observers (mem m))) m)
    as [[done flying] m1] eqn:E1.
  destruct (start_all_spec _ _ _ E1) as [F1 _].
  destruct (Promise_all_completes choose (all_finish flying) 0 m1) as [n Hn].
  exists n. rewrite Promise_all_settled by exact F1. exact Hn.
Qed.

Lemma invocations_In r d (tr : list (event T)) :
  In (r, d) (invocations tr) -> In (Invoked r d) tr.
Proof.
  induction tr as [|[r' d'|r' c] tr IH]; simpl; [tauto| |auto].
  intros [H|H]; [left; congruence | auto].
Qed.

Lemma sequential_visit_grows d rs :
  forall m, exists tr ls,
    trace (JSSet.visit (sequential_one obj d) rs m) = trace m ++ tr /\
    console (JSSet.visit (sequential_one obj d) rs m) = console m ++ ls.
Proof.
  induction rs as [|r rs IH]; simpl; intros m.
  - exists [], []. rewrite !app_nil_r. auto.
  - destruct (IH (snd (sequential_one obj d r m))) as [tr [ls [H1 H2]]].
    eexists. eexists.
    rewrite H1, H2, sequential_one_trace, sequential_one_console,
      <- !app_assoc.
    split; reflexivity.
Qed.

Lemma sequential_visit_reports d a rs :
  In a rs -> always_rejects (obj a) ->
  forall m, exists e,
    In (error_line obj a e)
       (console (JSSet.visit (sequential_one obj d) rs m)).
Proof.
  intros Ha Th. induction rs as [|r rs IH]; simpl; intros m; [contradiction|].
  destruct Ha as [->|Ha]; [|apply IH, Ha].
  destruct (Th d (mem m)) as [e He]. exists e.
  destruct (sequential_visit_grows d rs (snd (sequential_one obj d a m)))
    as [tr [ls [_ H]]].
  rewrite H, sequential_one_console, He.
  apply in_or_app. left. apply in_or_app. right. left. reflexivity.
Qed.

Lemma sequential_walk_console d fuel :
  forall index m,
  exists ls,
    console (snd (JSSet.walk entries (sequential_one obj d) fuel index m)) =
    console m ++ ls.
Proof.
  induction fuel as [|fuel IH]; intros index m; simpl.
  - exists []. destruct (length (entries m) <=? index); simpl;
      rewrite app_nil_r; reflexivity.
  - destruct (length (entries m) <=? index); simpl.
    { exists []. simpl. rewrite app_nil_r. reflexivity. }
    destruct (nth index (entries m) None) as [r|]; [|apply IH].
    pose proof (sequential_one_normal d r m) as N.
    pose proof (sequential_one_console d r m) as E.
    destruct (sequential_one obj d r m) as [[[]|e] m1]; simpl in N, E;
      [|discriminate].
    destruct (IH (S index) m1) as [ls Hl].
    eexists. rewrite Hl, E, <- app_assoc. reflexivity.
Qed.

Lemma sequential_visit_turns d rs :
  forall m, exists visits,
    trace (JSSet.visit (sequential_one obj d) rs m) = trace m ++ turns d visits /\
    map fst visits = rs.
Proof.
  induction rs as [|r rs IH]; simpl; intros m.
  - exists []. simpl. rewrite app_nil_r. auto.
  - destruct (IH (snd (sequential_one obj d r m))) as [visits [H1 H2]].
    exists ((r, fst (run_task (updateAsync (obj r) d) (mem m))) :: visits).
    rewrite H1, sequential_one_trace, <- app_assoc. simpl.
    rewrite H2. auto.
Qed.

Lemma turns_inj d (v1 v2 : list (ref * completion unit)) :
  turns (T := T) d v1 = turns d v2 -> v1 = v2.
Proof.
  revert v2. induction v1 as [|[r1 c1] v1 IH]; intros [|[r2 c2] v2] H;
    simpl in H; try discriminate; [reflexivity|].
  inversion H; subst. f_equal. apply IH. assumption.
Qed.
End WithPayload.
End AsyncFacts.

(** * Synchronous fan-out *)

Unset Implicit Arguments.

Section FanOut.
Context {T U : Type} (obj : ref -> Observable.Observer T U).
Implicit Types (m : Observable.machine T U) (x : T).

Local Abbreviation registered m := (observers (Observable.mem m)).

(** With observers that leave the registration set alone, one call of
    [notifyObservers] is the fold over the registered observers. *)
Lemma notify_quiet fuel x m :
  (forall r, Observable.hasObserver r (Observable.mem m) = true ->
             Observable.quiet (obj r)) ->
  length (registered m) <= fuel ->
  Observable.notifyObservers obj fuel x m =
  (Some (Normal tt),
   JSSet.visit (Observable.notify_one obj x) (JSSet.elements (registered m))
     (Observable.mkMachine (Observable.mem m) (Observable.console m)
        (Observable.calls m) (Observable.notified m ++ [x]))).
Proof.
  intros Q F. unfold Observable.notifyObservers.
  pose proof (@JSSetFacts.walk_calm _ _
                (fun m : Observable.machine T U => registered m)
                (Observable.notify_one obj x) fuel
                (Observable.mkMachine (Observable.mem m) (Observable.console m)
                   (Observable.calls m) (Observable.notified m ++ [x]))) as H.
  simpl in H. apply H; [|exact F].
  apply Forall_forall. intros r Hr.
  apply ObservableFacts.quiet_calm, Q, (JSSetFacts.has_In ref_dec), Hr.
Qed.

Lemma notify_fan_out fuel x m :
  (forall r, Observable.hasObserver r (Observable.mem m) = true ->
             Observable.quiet (obj r)) ->
  JSSet.wf (registered m) ->
  length (registered m) <= fuel ->
  fst (Observable.notifyObservers obj fuel x m) = Some (Normal tt) /\
  Observable.calls (snd (Observable.notifyObservers obj fuel x m)) =
    Observable.calls m ++ map (fun r => (r, x)) (JSSet.elements (registered m)) /\
  forall r,
    Observable.received r
      (Observable.calls (snd (Observable.notifyObservers obj fuel x m))) =
    Observable.received r (Observable.calls m) ++
    (if Observable.hasObserver r (Observable.mem m) then [x] else []).
Proof.
  intros Q W F. rewrite (notify_quiet fuel x m Q F). simpl.
  rewrite ObservableFacts.visit_calls. simpl.
  split; [reflexivity|]. split; [reflexivity|].
  intros r. rewrite ObservableFacts.received_app. f_equal.
  rewrite ObservableFacts.received_one_each by exact W.
  rewrite ObservableFacts.has_elements. reflexivity.
Qed.

End FanOut.

(** * Observers that fail *)

Section Failures.
Context {T U : Type}.
Variable obj : ref -> Observable.Observer T U.
Variable aobj : ref -> AsyncObservable.AsyncObserver T U.

Lemma notify_never_throws fuel d (m : Observable.machine T U) e :
  fst (Observable.notifyObservers obj fuel d m) <> Some (Throw e).
Proof.
  unfold Observable.notifyObservers.
  apply JSSetFacts.walk_never_throws. intros r m0.
  apply ObservableFacts.notify_one_normal.
Qed.

Lemma sequential_never_rejects fuel d (m : AsyncObservable.machine T U) e :
  fst (AsyncObservable.notifyObserversSequentially aobj fuel d m)
  <> Some (Throw e).
Proof.
  unfold AsyncObservable.notifyObserversSequentially.
  apply JSSetFacts.walk_never_throws. intros r m0.
  apply AsyncFacts.sequential_one_normal.
Qed.

Lemma parallel_never_rejects sched d (m : AsyncObservable.machine T U) e :
  fst (AsyncObservable.notifyObservers aobj sched d m) <> Some (Throw e).
Proof.
  destruct (AsyncObservable.notifyObservers aobj sched d m) as [res m'] eqn:E.
  destruct (AsyncFacts.notify_parallel_spec _ _ _ _ E) as [N _].
  apply N.
Qed.

Lemma notify_returns fuel d (m : Observable.machine T U) :
  (forall r, Observable.registers_nobody (obj r)) ->
  length (observers (Observable.mem m)) <= fuel ->
  fst (Observable.notifyObservers obj fuel d m) = Some (Normal tt).
Proof.
  intros Q F. unfold Observable.notifyObservers.
  apply JSSetFacts.walk_returns.
  - intros r m0. apply ObservableFacts.notify_one_normal.
  - intros r m0. rewrite ObservableFacts.notify_one_mem. apply Q.
  - simpl. lia.
Qed.

Lemma sequential_completes fuel d (m : AsyncObservable.machine T U) :
  (forall r, AsyncObservable.registers_nobody (aobj r)) ->
  length (observers (AsyncObservable.mem m)) <= fuel ->
  fst (AsyncObservable.notifyObserversSequentially aobj fuel d m)
  = Some (Normal tt).
Proof.
  intros Q F. unfold AsyncObservable.notifyObserversSequentially.
  apply JSSetFacts.walk_returns.
  - intros r m0. apply AsyncFacts.sequential_one_normal.
  - intros r m0. rewrite AsyncFacts.sequential_one_mem.
    apply AsyncFacts.registers_nobody_run, Q.
  - lia.
Qed.

End Failures.

(** An observer that unregisters and registers itself again lands in a new
    slot behind the one being visited, so the walk meets it again, for
    ever. *)
Lemma requeuer_walk fuel :
  forall k (m : Observable.machine nat unit),
    observers (Observable.mem m) = repeat None k ++ [Some 0] ->
    fst (JSSet.walk (fun m => observers (Observable.mem m))
           (Observable.notify_one (Scenario.cast (Scenario.requeuer 0)) 7)
           fuel k m) = None.
Proof.
  induction fuel as [|fuel IH]; intros k m E; simpl; rewrite E;
    rewrite length_app, repeat_length; simpl;
    destruct (Nat.leb_spec (k + 1) k) as [L|_]; try lia; [reflexivity|].
  rewrite app_nth2, repeat_length, Nat.sub_diag by (rewrite repeat_length; lia).
  simpl.
  apply IH. simpl. rewrite E.
  change (map _ (repeat None k ++ [Some 0]))
    with (snd (JSSet.delete ref_dec 0 (repeat None k ++ [Some 0]))).
  rewrite JSSetFacts.delete_blank.
  rewrite JSSetFacts.add_fresh by apply JSSetFacts.has_blank.
  reflexivity.
Qed.

Lemma arequeuer_walk fuel :
  forall k (m : AsyncObservable.machine nat unit),
    observers (AsyncObservable.mem m) = repeat None k ++ [Some 0] ->
    fst (JSSet.walk (fun m => observers (AsyncObservable.mem m))
           (AsyncObservable.sequential_one
              (Scenario.acast (Scenario.arequeuer 0)) 7)
           fuel k m) = None.
Proof.
  induction fuel as [|fuel IH]; intros k m E; simpl; rewrite E;
    rewrite length_app, repeat_length; simpl;
    destruct (Nat.leb_spec (k + 1) k) as [L|_]; try lia; [reflexivity|].
  rewrite app_nth2, repeat_length, Nat.sub_diag by (rewrite repeat_length; lia).
  simpl.
  apply IH. simpl. rewrite E.
  change (map _ (repeat None k ++ [Some 0]))
    with (snd (JSSet.delete ref_dec 0 (repeat None k ++ [Some 0]))).
  rewrite JSSetFacts.delete_blank.
  rewrite JSSetFacts.add_fresh by apply JSSetFacts.has_blank.
  reflexivity.
Qed.



(** * A failing observer and the one behind it *)

Section Isolation.
Context {T U : Type}.
Variable obj : ref -> Observable.Observer T U.
Variable aobj : ref -> AsyncObservable.AsyncObserver T U.

Lemma notify_reaches_second (a b : ref) (d : T) fuel
    (m : Observable.machine T U) pre post :
  observers (Observable.mem m) = pre ++ Some b :: post ->
  In a (JSSet.elements pre) ->
  Observable.always_throws (obj a) ->
  (forall r, In r (JSSet.elements pre) -> Observable.quiet (obj r)) ->
  length pre < fuel ->
  exists cs e,
    Observable.calls (snd (Observable.notifyObservers obj fuel d m)) =
      Observable.calls m ++ cs /\
    In (b, d) cs /\
    In (Observable.error_line obj a e)
       (Observable.console (snd (Observable.notifyObservers obj fuel d m))).
Proof.
  intros E Ha Th Q F. unfold Observable.notifyObservers.
  set (mN := Observable.mkMachine _ _ _ _).
  replace fuel with (length pre + S (fuel - S (length pre))) by lia.
  assert (C : Forall (JSSet.calm (fun m => observers (Observable.mem m))
                                 (Observable.notify_one obj d))
                     (JSSet.elements pre)).
  { apply Forall_forall. intros r Hr.
    apply ObservableFacts.quiet_calm, Q, Hr. }
  rewrite (@JSSetFacts.walk_reaches _ _ _ _ _ mN pre b post E C).
  set (m0 := JSSet.visit (Observable.notify_one obj d) (JSSet.elements pre) mN).
  assert (C0 : Observable.calls m0 =
               Observable.calls m ++ map (fun r => (r, d)) (JSSet.elements pre)).
  { unfold m0. rewrite ObservableFacts.visit_calls. reflexivity. }
  destruct (ObservableFacts.visit_reports obj d a (JSSet.elements pre) Ha Th mN)
    as [e He]. fold m0 in He.
  pose proof (ObservableFacts.notify_one_normal obj d b m0) as N.
  pose proof (ObservableFacts.notify_one_calls obj d b m0) as C1.
  pose proof (ObservableFacts.notify_one_console obj d b m0) as L1.
  destruct (Observable.notify_one obj d b m0) as [[[]|e1] m1];
    simpl in N, C1, L1; [|discriminate].
  destruct (ObservableFacts.walk_extends obj d (fuel - S (length pre))
              (S (length pre)) m1) as [[cs [Hc _]] [[ls Hl] _]].
  exists (map (fun r => (r, d)) (JSSet.elements pre) ++ (b, d) :: cs), e.
  split; [|split].
  - rewrite Hc, C1, C0, <- !app_assoc. reflexivity.
  - apply in_or_app. right. left. reflexivity.
  - rewrite Hl, L1. apply in_or_app. left. apply in_or_app. left. exact He.
Qed.

Lemma sequential_reaches_second (a b : ref) (d : T) fuel
    (m : AsyncObservable.machine T U) pre post :
  observers (AsyncObservable.mem m) = pre ++ Some b :: post ->
  In a (JSSet.elements pre) ->
  AsyncObservable.always_rejects (aobj a) ->
  (forall r, In r (JSSet.elements pre) -> AsyncObservable.quiet (aobj r)) ->
  length pre < fuel ->
  exists tr e,
    AsyncObservable.trace
      (snd (AsyncObservable.notifyObserversSequentially aobj fuel d m)) =
      AsyncObservable.trace m ++ tr /\
    In (AsyncObservable.Invoked b d) tr /\
    In (AsyncObservable.error_line aobj a e)
       (AsyncObservable.console
          (snd (AsyncObservable.notifyObserversSequentially aobj fuel d m))).
Proof.
  intros E Ha Th Q F. unfold AsyncObservable.notifyObserversSequentially.
  replace fuel with (length pre + S (fuel - S (length pre))) by lia.
  assert (C : Forall (JSSet.calm (fun m => observers (AsyncObservable.mem m))
                                 (AsyncObservable.sequential_one aobj d))
                     (JSSet.elements pre)).
  { apply Forall_forall. intros r Hr. apply AsyncFacts.quiet_task_calm, Q, Hr. }
  rewrite (@JSSetFacts.walk_reaches _ _ _ _ _ m pre b post E C).
  set (m0 := JSSet.visit (AsyncObservable.sequential_one aobj d)
                         (JSSet.elements pre) m).
  destruct (AsyncFacts.sequential_visit_grows aobj d (JSSet.elements pre) m)
    as [tr0 [ls0 [T0 _]]]. fold m0 in T0.
  destruct (AsyncFacts.sequential_visit_reports aobj d a (JSSet.elements pre)
              Ha Th m) as [e He]. fold m0 in He.
  pose proof (AsyncFacts.sequential_one_normal aobj d b m0) as N.
  pose proof (AsyncFacts.sequential_one_trace aobj d b m0) as T1.
  pose proof (AsyncFacts.sequential_one_console aobj d b m0) as L1.
  destruct (AsyncObservable.sequential_one aobj d b m0) as [[[]|e1] m1];
    simpl in N, T1, L1; [|discriminate].
  destruct (AsyncFacts.sequential_walk_turns aobj d (fuel - S (length pre))
              (S (length pre)) m1) as [visits Hv].
  destruct (AsyncFacts.sequential_walk_console aobj d (fuel - S (length pre))
              (S (length pre)) m1) as [ls Hl].
  eexists. exists e. split; [|split].
  - rewrite Hv, T1, T0, <- !app_assoc. reflexivity.
  - apply in_or_app. right. left. reflexivity.
  - rewrite Hl, L1. apply in_or_app. left. apply in_or_app. left. exact He.
Qed.

Lemma parallel_reaches_all (b : ref) (d : T) sched
    (m : AsyncObservable.machine T U) :
  In b (JSSet.elements (observers (AsyncObservable.mem m))) ->
  exists tr,
    AsyncObservable.trace (snd (AsyncObservable.notifyObservers aobj sched d m))
    = AsyncObservable.trace m ++ tr /\
    In (AsyncObservable.Invoked b d) tr.
Proof.
  intros Hb.
  destruct (AsyncObservable.notifyObservers aobj sched d m) as [res m'] eqn:E.
  destruct (AsyncFacts.notify_parallel_spec _ _ _ _ E) as [_ [tr [Tr [I _]]]].
  exists tr. split; [exact Tr|].
  apply (AsyncFacts.invocations_In aobj). rewrite I.
  apply in_map_iff. exists b. auto.
Qed.

End Isolation.




(** * Changing the registration set during a notification *)

Section LiveSet.
Context {T U : Type} (obj : ref -> Observable.Observer T U).
Implicit Types (m : Observable.machine T U) (x : T).

Local Abbreviation registered m := (observers (Observable.mem m)).
Local Abbreviation entries :=
  (fun m : Observable.machine T U => observers (Observable.mem m)).

Lemma others_calm x a (rs : list ref) :
  (forall r, r <> a -> Observable.quiet (obj r)) ->
  ~ In a rs ->
  Forall (JSSet.calm entries (Observable.notify_one obj x)) rs.
Proof.
  intros Q Ha. apply Forall_forall. intros r Hr.
  apply ObservableFacts.quiet_calm, Q. intros ->. exact (Ha Hr).
Qed.

(** An observer registered by the callback of [a] is visited by the same
    call, after everybody who was registered when the call began. *)
Lemma notify_visits_added fuel x m a b :
  JSSet.wf (registered m) ->
  Observable.hasObserver a (Observable.mem m) = true ->
  Observable.hasObserver b (Observable.mem m) = false ->
  (forall r, r <> a -> Observable.quiet (obj r)) ->
  (forall d s, observers (snd (Observable.update (obj a) d s)) =
               JSSet.add ref_dec b (observers s)) ->
  length (registered m) < fuel ->
  fst (Observable.notifyObservers obj fuel x m) = Some (Normal tt) /\
  Observable.calls (snd (Observable.notifyObservers obj fuel x m)) =
    Observable.calls m ++
    map (fun r => (r, x)) (JSSet.elements (registered m) ++ [b]) /\
  registered (snd (Observable.notifyObservers obj fuel x m)) =
    registered m ++ [Some b].
Proof.
  intros W Ha Hb Q Hadd F.
  assert (Hab : b <> a) by (intros ->; unfold Observable.hasObserver in *; congruence).
  unfold Observable.hasObserver in Ha, Hb.
  apply JSSetFacts.has_In in Ha.
  destruct (JSSetFacts.elements_split _ _ Ha) as [s1 [s2 E]].
  unfold JSSet.wf in W. rewrite E, JSSetFacts.elements_app in W. simpl in W.
  pose proof (NoDup_remove_2 _ _ _ W) as Na.
  assert (N1 : ~ In a (JSSet.elements s1)) by (intros H; apply Na, in_or_app; auto).
  assert (N2 : ~ In a (JSSet.elements (s2 ++ [Some b]))).
  { rewrite JSSetFacts.elements_app. simpl. intros H.
    apply in_app_or in H. destruct H as [H|[H|[]]]; [|congruence].
    apply Na, in_or_app; auto. }
  unfold Observable.notifyObservers.
  set (mN := Observable.mkMachine _ _ _ _).
  set (m0 := JSSet.visit (Observable.notify_one obj x) (JSSet.elements s1) mN).
  pose proof (@JSSetFacts.visit_entries _ _ entries (Observable.notify_one obj x)
                (JSSet.elements s1) (@others_calm x a _ Q N1) mN) as E0.
  fold m0 in E0. cbv beta in E0. change (registered mN) with (registered m) in E0.
  assert (E1 : entries (snd (Observable.notify_one obj x a m0)) =
               (s1 ++ [Some a]) ++ (s2 ++ [Some b])).
  { cbv beta. rewrite ObservableFacts.notify_one_mem, Hadd, E0.
    rewrite JSSetFacts.add_fresh by exact Hb.
    rewrite E, <- !app_assoc. reflexivity. }
  rewrite (@JSSetFacts.walk_one_active _ _ entries (Observable.notify_one obj x)
             fuel mN s1 a s2 (s1 ++ [Some a]) (s2 ++ [Some b])).
  - cbv beta. fold m0. cbn [fst snd]. split; [reflexivity|]. split.
    + rewrite ObservableFacts.visit_calls, ObservableFacts.notify_one_calls.
      unfold m0. rewrite ObservableFacts.visit_calls. simpl.
      rewrite E, !JSSetFacts.elements_app. simpl.
      rewrite !map_app. simpl. rewrite <- !app_assoc. reflexivity.
    + pose proof (@JSSetFacts.visit_entries _ _ entries
                    (Observable.notify_one obj x)
                    (JSSet.elements (s2 ++ [Some b])) (@others_calm x a _ Q N2)
                    (snd (Observable.notify_one obj x a m0))) as E2.
      cbv beta in E2, E1. rewrite E2, E1, E, <- !app_assoc. reflexivity.
  - exact E.
  - apply (@others_calm x a); assumption.
  - apply ObservableFacts.notify_one_normal.
  - exact E1.
  - rewrite length_app. simpl. lia.
  - apply (@others_calm x a); assumption.
  - rewrite E in F. rewrite !length_app in *. simpl in *. lia.
Qed.

(** An observer unregistered by the callback of [a] before its own turn is
    not visited by the call, though it was registered when the call
    began. *)
Lemma notify_skips_removed fuel x m a b pre post :
  JSSet.wf (registered m) ->
  registered m = pre ++ Some a :: post ->
  In b (JSSet.elements post) ->
  (forall r, r <> a -> Observable.quiet (obj r)) ->
  (forall d s, observers (snd (Observable.update (obj a) d s)) =
               snd (JSSet.delete ref_dec b (observers s))) ->
  length (registered m) <= fuel ->
  fst (Observable.notifyObservers obj fuel x m) = Some (Normal tt) /\
  Observable.calls (snd (Observable.notifyObservers obj fuel x m)) =
    Observable.calls m ++
    map (fun r => (r, x))
        (JSSet.elements (snd (JSSet.delete ref_dec b (registered m)))) /\
  registered (snd (Observable.notifyObservers obj fuel x m)) =
    snd (JSSet.delete ref_dec b (registered m)) /\
  Observable.received b
    (Observable.calls (snd (Observable.notifyObservers obj fuel x m))) =
    Observable.received b (Observable.calls m).
Proof.
  intros W E Hb Q Hdel F.
  pose proof W as W0.
  unfold JSSet.wf in W. rewrite E, JSSetFacts.elements_app in W. simpl in W.
  pose proof (NoDup_remove_2 _ _ _ W) as Na.
  assert (N1 : ~ In a (JSSet.elements pre))
    by (intros H; apply Na, in_or_app; auto).
  assert (N2 : ~ In a (JSSet.elements (snd (JSSet.delete ref_dec b post)))).
  { rewrite JSSetFacts.elements_delete. intros H.
    apply filter_In in H. apply Na, in_or_app. tauto. }
  assert (Hab : b <> a).
  { intros ->. apply Na, in_or_app. auto. }
  assert (Hpre : snd (JSSet.delete ref_dec b pre) = pre).
  { rewrite JSSetFacts.delete_absent; [reflexivity|].
    apply JSSetFacts.has_false_In. intros H.
    apply NoDup_remove_1 in W.
    eapply JSSetFacts.NoDup_app_apart; eassumption. }
  assert (Ed : snd (JSSet.delete ref_dec b (registered m)) =
               (pre ++ [Some a]) ++ snd (JSSet.delete ref_dec b post)).
  { rewrite E, JSSetFacts.delete_app, Hpre,
      JSSetFacts.delete_cons_other by exact Hab.
    rewrite <- app_assoc. reflexivity. }
  unfold Observable.notifyObservers.
  set (mN := Observable.mkMachine _ _ _ _).
  set (m0 := JSSet.visit (Observable.notify_one obj x) (JSSet.elements pre) mN).
  pose proof (@JSSetFacts.visit_entries _ _ entries (Observable.notify_one obj x)
                (JSSet.elements pre) (@others_calm x a _ Q N1) mN) as E0.
  fold m0 in E0. cbv beta in E0. change (registered mN) with (registered m) in E0.
  assert (E1 : entries (snd (Observable.notify_one obj x a m0)) =
               (pre ++ [Some a]) ++ snd (JSSet.delete ref_dec b post)).
  { cbv beta. rewrite ObservableFacts.notify_one_mem, Hdel, E0. exact Ed. }
  rewrite (@JSSetFacts.walk_one_active _ _ entries (Observable.notify_one obj x)
             fuel mN pre a post (pre ++ [Some a])
             (snd (JSSet.delete ref_dec b post))).
  - cbv beta. fold m0. cbn [fst snd].
    assert (C : Observable.calls
                  (JSSet.visit (Observable.notify_one obj x)
                     (JSSet.elements (snd (JSSet.delete ref_dec b post)))
                     (snd (Observable.notify_one obj x a m0))) =
                Observable.calls m ++
                map (fun r => (r, x))
                    (JSSet.elements
                       (snd (JSSet.delete ref_dec b (registered m))))).
    { rewrite ObservableFacts.visit_calls, ObservableFacts.notify_one_calls.
      unfold m0. rewrite ObservableFacts.visit_calls. cbn [Observable.calls mN].
      rewrite Ed, !JSSetFacts.elements_app. cbn [JSSet.elements].
      rewrite !map_app. cbn [map]. rewrite <- !app_assoc. reflexivity. }
    split; [reflexivity|]. split; [exact C|]. split.
    + pose proof (@JSSetFacts.visit_entries _ _ entries
                    (Observable.notify_one obj x)
                    (JSSet.elements (snd (JSSet.delete ref_dec b post)))
                    (@others_calm x a _ Q N2)
                    (snd (Observable.notify_one obj x a m0))) as E2.
      cbv beta in E2, E1. rewrite E2, E1, Ed. reflexivity.
    + rewrite C, ObservableFacts.received_app.
      rewrite ObservableFacts.received_one_each
        by (apply JSSetFacts.wf_delete, W0).
      rewrite ObservableFacts.has_elements, JSSetFacts.has_delete_same.
      apply app_nil_r.
  - exact E.
  - apply (@others_calm x a); assumption.
  - apply ObservableFacts.notify_one_normal.
  - exact E1.
  - rewrite length_app. simpl. lia.
  - apply (@others_calm x a); assumption.
  - rewrite E in F. rewrite !length_app in *. simpl in *.
    rewrite JSSetFacts.length_map_delete. lia.
Qed.

End LiveSet.



(** The scenario of the specification: three observers are notified once
    each; after [clearObservers] a second notification reaches nobody. *)
Example notify_after_clear :
  let obj := Scenario.cast Scenario.silent in
  let m1 := snd (Observable.notifyObservers obj 3 1 (Scenario.subject [0; 1; 2])) in
  let m2 := Observable.set_mem (snd (Observable.clearObservers (Observable.mem m1))) m1 in
  Observable.calls m1 = [(0, 1); (1, 1); (2, 1)] /\
  Observable.getObserverCount (Observable.mem m2) = 0 /\
  Observable.notifyObservers obj 3 2 m2 =
  (Some (Normal tt),
   Observable.mkMachine (mkStore [None; None; None] tt) []
     [(0, 1); (1, 1); (2, 1)] [1; 2]).
Proof. repeat split. Qed.

(** * Asynchronous fan-out *)

Section AsyncFanOut.
Context {T U : Type} (aobj : ref -> AsyncObservable.AsyncObserver T U).
Implicit Types (m : AsyncObservable.machine T U) (d : T).


End AsyncFanOut.


(** The first observer unregisters the second while the parallel
    notification is under way; the second is invoked all the same. *)
Example parallel_ignores_changes :
  AsyncObservable.invocations
    (AsyncObservable.trace
       (snd (AsyncObservable.notifyObservers
               (Scenario.acast (Scenario.asaboteur 1)) [0; 0; 0] 7
               (Scenario.asubject [0; 1]))))
  = [(0, 7); (1, 7)].
Proof. reflexivity. Qed.

(** The notion is not idle: two observers notified in parallel are both
    under way before either settles. *)
Remark parallel_overlaps :
  ~ AsyncObservable.one_at_a_time
      (AsyncObservable.trace
         (snd (AsyncObservable.notifyObservers
                 (Scenario.acast Scenario.afaulty) [0; 0] 7
                 (Scenario.asubject [0; 1])))).
Proof.
  intros H.
  specialize (H [AsyncObservable.Invoked 0 7] 1 7
                [AsyncObservable.Settled 0 (Throw "boom"%string);
                 AsyncObservable.Settled 1 (Normal tt)] eq_refl).
  discriminate.
Qed.

(** * The registration set *)

Section Registration.
Context {T U : Type}.
Variable obj : ref -> Observable.Observer T U.
Variable aobj : ref -> AsyncObservable.AsyncObserver T U.

Lemma removeObserver_absent (o : ref) (s : store U) :
  Observable.hasObserver o s = false ->
  Observable.removeObserver o s = (Normal tt, s).
Proof.
  unfold Observable.hasObserver, Observable.removeObserver. intros H.
  rewrite (JSSetFacts.delete_absent ref_dec o (observers s) H).
  destruct s; reflexivity.
Qed.

(** C9.  Registering an observer that the first [add] has just registered
    changes nothing, so two [add]s in a row of an observer that was not
    registered raise the count by one; [remove] of an observer that is not
    registered returns normally and leaves the store as it is.  Both
    notifiers register in the same way ([AsyncObservable] has no method
    that reads the count; the size of its set is read directly). *)
Theorem registration_is_idempotent (o : ref) (s : store U) :
  (snd (Observable.addObserver o (snd (Observable.addObserver o s))) =
     snd (Observable.addObserver o s) /\
   fst (Observable.addObserver o (snd (Observable.addObserver o s))) =
     Normal tt /\
   Observable.getObserverCount
     (snd (Observable.addObserver o (snd (Observable.addObserver o s)))) =
     Observable.getObserverCount s +
     (if Observable.hasObserver o s then 0 else 1) /\
   (Observable.hasObserver o s = false ->
    Observable.removeObserver o s = (Normal tt, s))) /\
  (snd (AsyncObservable.addObserver o (snd (AsyncObservable.addObserver o s))) =
     snd (AsyncObservable.addObserver o s) /\
   fst (AsyncObservable.addObserver o (snd (AsyncObservable.addObserver o s))) =
     Normal tt /\
   JSSet.size
     (observers
        (snd (AsyncObservable.addObserver o
                (snd (AsyncObservable.addObserver o s))))) =
     JSSet.size (observers s) +
     (if JSSet.has ref_dec o (observers s) then 0 else 1) /\
   (JSSet.has ref_dec o (observers s) = false ->
    AsyncObservable.removeObserver o s = (Normal tt, s))).
Proof.
  assert (I : JSSet.add ref_dec o (JSSet.add ref_dec o (observers s)) =
              JSSet.add ref_dec o (observers s))
    by apply JSSetFacts.add_idempotent.
  assert (C : JSSet.size (JSSet.add ref_dec o (observers s)) =
              JSSet.size (observers s) +
              (if JSSet.has ref_dec o (observers s) then 0 else 1)).
  { rewrite JSSetFacts.size_add.
    destruct (JSSet.has ref_dec o (observers s)); lia. }
  split; (split; [|split; [|split]]).
  - simpl. unfold Observable.set_observers. simpl. rewrite I. reflexivity.
  - reflexivity.
  - unfold Observable.getObserverCount, Observable.hasObserver. simpl.
    rewrite I. exact C.
  - apply removeObserver_absent.
  - simpl. unfold AsyncObservable.set_observers. simpl. rewrite I.
    reflexivity.
  - reflexivity.
  - simpl. rewrite I. exact C.
  - intros H. exact (removeObserver_absent o s H).
Qed.

(** C10.  A notification whose observers leave the registration set alone
    leaves it as it was, entry for entry, however far the run gets; so its
    members and its size are those from before the call. *)
Theorem notification_keeps_registration :
  (forall fuel d (m : Observable.machine T U),
      (forall r, Observable.hasObserver r (Observable.mem m) = true ->
                 Observable.quiet (obj r)) ->
      let m' := snd (Observable.notifyObservers obj fuel d m) in
      observers (Observable.mem m') = observers (Observable.mem m) /\
      Observable.getObserverCount (Observable.mem m') =
        Observable.getObserverCount (Observable.mem m)) /\
  (forall sched d (m : AsyncObservable.machine T U),
      (forall r, In r (JSSet.elements (observers (AsyncObservable.mem m))) ->
                 AsyncObservable.quiet (aobj r)) ->
      observers
        (AsyncObservable.mem
           (snd (AsyncObservable.notifyObservers aobj sched d m))) =
      observers (AsyncObservable.mem m)) /\
  (forall fuel d (m : AsyncObservable.machine T U),
      (forall r, In r (JSSet.elements (observers (AsyncObservable.mem m))) ->
                 AsyncObservable.quiet (aobj r)) ->
      observers
        (AsyncObservable.mem
           (snd (AsyncObservable.notifyObserversSequentially aobj fuel d m))) =
      observers (AsyncObservable.mem m)).
Proof.
  split; [|split].
  - intros fuel d m Q m'.
    assert (E : observers (Observable.mem m') = observers (Observable.mem m)).
    { subst m'. unfold Observable.notifyObservers.
      set (mN := Observable.mkMachine _ _ _ _).
      apply (@JSSetFacts.walk_calm_entries _ _
               (fun m => observers (Observable.mem m))
               (Observable.notify_one obj d) fuel 0 mN).
      apply Forall_forall. intros r Hr.
      apply ObservableFacts.quiet_calm, Q.
      apply (JSSetFacts.has_In ref_dec). exact Hr. }
    split; [exact E|]. unfold Observable.getObserverCount. rewrite E.
    reflexivity.
  - intros sched d m Q.
    apply (@AsyncFacts.notify_parallel_keeps _ _ aobj
             (fun s s' => observers s' = observers s)).
    + reflexivity.
    + intros; congruence.
    + apply Forall_forall. intros r Hr. apply (Q r Hr).
  - intros fuel d m Q.
    unfold AsyncObservable.notifyObserversSequentially.
    apply (@JSSetFacts.walk_calm_entries _ _
             (fun m => observers (AsyncObservable.mem m))
             (AsyncObservable.sequential_one aobj d) fuel 0 m).
    apply Forall_forall. intros r Hr.
    apply AsyncFacts.quiet_task_calm, Q, Hr.
Qed.
End Registration.

(** On a subject with two observers and a third object. *)
Lemma registration_is_idempotent_witness :
  Observable.removeObserver 5 (Observable.mem (Scenario.subject [0; 1]))
  = (Normal tt, Observable.mem (Scenario.subject [0; 1])) /\
  AsyncObservable.removeObserver 5
    (AsyncObservable.mem (Scenario.asubject [0; 1]))
  = (Normal tt, AsyncObservable.mem (Scenario.asubject [0; 1])) /\
  Observable.getObserverCount
    (snd (Observable.addObserver 5
            (snd (Observable.addObserver 5
                    (Observable.mem (Scenario.subject [0; 1])))))) = 3.
Proof.
  destruct (registration_is_idempotent 5
              (Observable.mem (Scenario.subject [0; 1])))
    as [[_ [_ [C R]]] [_ [_ [_ R']]]].
  split; [apply R; reflexivity|]. split; [apply R'; reflexivity|].
  exact C.
Defined.

(** On a faulty observer and two silent ones, in the three modes. *)
Lemma notification_keeps_registration_witness :
  observers
    (Observable.mem
       (snd (Observable.notifyObservers (Scenario.cast Scenario.faulty) 3 7
               (Scenario.subject [0; 1; 2])))) = [Some 0; Some 1; Some 2] /\
  observers
    (AsyncObservable.mem
       (snd (AsyncObservable.notifyObservers (Scenario.acast Scenario.afaulty)
               [1; 0; 0] 7 (Scenario.asubject [0; 1; 2]))))
  = [Some 0; Some 1; Some 2] /\
  observers
    (AsyncObservable.mem
       (snd (AsyncObservable.notifyObserversSequentially
               (Scenario.acast Scenario.afaulty) 3 7
               (Scenario.asubject [0; 1; 2]))))
  = [Some 0; Some 1; Some 2].
Proof.
  destruct (notification_keeps_registration (Scenario.cast Scenario.faulty)
              (Scenario.acast Scenario.afaulty)) as [S [P Q]].
  split; [|split].
  - apply (S 3 7 (Scenario.subject [0; 1; 2])).
    intros [|r] _ d s; reflexivity.
  - apply (P [1; 0; 0] 7 (Scenario.asubject [0; 1; 2])).
    intros [|r] _ d; simpl; auto.
  - apply (Q 3 7 (Scenario.asubject [0; 1; 2])).
    intros [|r] _ d; simpl; auto.
Defined.

(** * The filter *)

Section Filter.
Context {D U : Type} (obj : ref -> Observable.Observer (Event D) U).
Implicit Types (event : Event D) (this : EventFilter.EventFilter D U).

(** What [update] does with an event whose type is allowed: one line on the
    console, then one [notifyObservers] on the downstream emitter. *)
Lemma update_allowed fuel now event this :
  JSSet.has string_dec (type event) (EventFilter.allowedTypes this) = true ->
  EventFilter.update obj fuel now event this =
  (fst (Observable.notifyObservers obj fuel (EventFilter.derived now event)
          (snd (Observable.console_write
                  (EventFilter.filtering_line this event)
                  (EventFilter.filteredEmitter this)))),
   EventFilter.mkEventFilter (EventFilter.id this)
     (EventFilter.allowedTypes this)
     (snd (Observable.notifyObservers obj fuel (EventFilter.derived now event)
             (snd (Observable.console_write
                     (EventFilter.filtering_line this event)
                     (EventFilter.filteredEmitter this)))))).
Proof.
  intros H. unfold EventFilter.update, EventEmitter.emit. rewrite H.
  cbn [Observable.console_write snd].
  destruct (Observable.notifyObservers obj fuel _ _). reflexivity.
Qed.

Lemma update_emits fuel now event this :
  JSSet.has string_dec (type event) (EventFilter.allowedTypes this) = true ->
  Observable.notified
    (EventFilter.filteredEmitter (snd (EventFilter.update obj fuel now event this)))
  = Observable.notified (EventFilter.filteredEmitter this) ++
    [EventFilter.derived now event] /\
  exists ls,
    Observable.console
      (EventFilter.filteredEmitter (snd (EventFilter.update obj fuel now event this)))
    = Observable.console (EventFilter.filteredEmitter this) ++
      EventFilter.filtering_line this event :: ls.
Proof.
  intros H. rewrite (update_allowed fuel now event this H).
  cbn [snd EventFilter.filteredEmitter]. unfold Observable.notifyObservers.
  match goal with
  | |- context [JSSet.walk _ _ fuel 0 ?mN] =>
      destruct (ObservableFacts.walk_extends obj (EventFilter.derived now event) fuel 0 mN)
        as [_ [[ls Hl] Hn]]
  end.
  split.
  - rewrite Hn. reflexivity.
  - exists ls. rewrite Hl. simpl. rewrite <- app_assoc. reflexivity.
Qed.

(** C7.  An event whose type is in the allow-set makes the filter emit one
    event on the downstream emitter, with the type and the data of the event
    that came in; downstream observers that leave the downstream
    registration set alone each receive it once.  An event whose type is not
    in the allow-set changes nothing: nobody downstream is invoked, nothing
    is written, and [update] returns normally. *)
Theorem filter_passes_allowed_only fuel now event this :
  (JSSet.has string_dec (type event) (EventFilter.allowedTypes this) = true ->
   let this' := snd (EventFilter.update obj fuel now event this) in
   let before := EventFilter.filteredEmitter this in
   let after := EventFilter.filteredEmitter this' in
   exists e',
     Observable.notified after = Observable.notified before ++ [e'] /\
     type e' = type event /\
     data e' = data event /\
     ((forall r, Observable.hasObserver r (Observable.mem before) = true ->
                 Observable.quiet (obj r)) ->
      JSSet.wf (observers (Observable.mem before)) ->
      length (observers (Observable.mem before)) <= fuel ->
      fst (EventFilter.update obj fuel now event this) = Some (Normal tt) /\
      forall r,
        Observable.received r (Observable.calls after) =
        Observable.received r (Observable.calls before) ++
        (if Observable.hasObserver r (Observable.mem before)
         then [e'] else []))) /\
  (JSSet.has string_dec (type event) (EventFilter.allowedTypes this) = false ->
   EventFilter.update obj fuel now event this = (Some (Normal tt), this)).
Proof.
  split.
  - intros H this' before after. exists (EventFilter.derived now event).
    split; [exact (proj1 (update_emits fuel now event this H))|].
    split; [reflexivity|]. split; [reflexivity|].
    intros Q W F. subst this' after.
    rewrite (update_allowed fuel now event this H).
    cbn [fst snd EventFilter.filteredEmitter].
    destruct (notify_fan_out obj fuel (EventFilter.derived now event)
                (snd (Observable.console_write
                        (EventFilter.filtering_line this event) before))
                Q W F) as [R [_ V]].
    split; [exact R | exact V].
  - intros H. unfold EventFilter.update. rewrite H. reflexivity.
Qed.

End Filter.

(** The sixth property of the specification on the filter of the
    demonstration: "info" reaches nobody, "error" reaches the logger once
    and is still an "error". *)
Example filter_of_the_demonstration :
  EventFilter.update (fun _ => Scenario.logger) 1 9
    (Scenario.event_of "info" (Some "App"%string)) Scenario.errorFilter
  = (Some (Normal tt), Scenario.errorFilter) /\
  map (fun c => type (snd c))
      (Observable.calls
         (EventFilter.filteredEmitter
            (snd (EventFilter.update (fun _ => Scenario.logger) 1 9
                    (Scenario.event_of "error" (Some "DB"%string))
                    Scenario.errorFilter))))
  = ["error"%string].
Proof. split; reflexivity. Qed.

(** On the filter of the demonstration. *)
Lemma filter_passes_allowed_only_witness :
  (exists e',
      Observable.notified
        (EventFilter.filteredEmitter
           (snd (EventFilter.update (fun _ => Scenario.logger) 1 9
                   (Scenario.event_of "error" (Some "DB"%string))
                   Scenario.errorFilter))) = [] ++ [e'] /\
      type e' = "error"%string /\
      Observable.received 0
        (Observable.calls
           (EventFilter.filteredEmitter
              (snd (EventFilter.update (fun _ => Scenario.logger) 1 9
                      (Scenario.event_of "error" (Some "DB"%string))
                      Scenario.errorFilter)))) = [e']) /\
  EventFilter.update (fun _ => Scenario.logger) 1 9
    (Scenario.event_of "info" (Some "App"%string)) Scenario.errorFilter
  = (Some (Normal tt), Scenario.errorFilter).
Proof.
  split.
  - destruct (proj1 (filter_passes_allowed_only (fun _ => Scenario.logger) 1 9
                       (Scenario.event_of "error" (Some "DB"%string))
                       Scenario.errorFilter) eq_refl)
      as [e' [N [Ty [_ V]]]].
    exists e'. split; [exact N|]. split; [exact Ty|].
    refine (proj2 (V _ _ _) 0).
    + intros r _ d s. reflexivity.
    + repeat constructor; simpl; intuition discriminate.
    + simpl. lia.
  - apply (proj2 (filter_passes_allowed_only (fun _ => Scenario.logger) 1 9
                    (Scenario.event_of "info" (Some "App"%string))
                    Scenario.errorFilter)).
    reflexivity.
Defined.



(** * More on the registration set *)

Module RegistryFacts.
Section WithElem.
Context {A : Type} (eq_dec : forall x y : A, {x = y} + {x <> y}).
Implicit Types (s : JSSet.SetData (A := A)) (x y : A).

Lemma has_delete_other x y s :
  x <> y ->
  JSSet.has eq_dec y (snd (JSSet.delete eq_dec x s)) = JSSet.has eq_dec y s.
Proof.
  intros H. induction s as [|[z|] s IH]; simpl in *; [reflexivity| |exact IH].
  rewrite IH. f_equal.
  destruct (eq_dec x z) as [->|Hxz]; simpl; [|reflexivity].
  destruct (eq_dec y z) as [->|]; [congruence | reflexivity].
Qed.

Lemma has_clear x s : JSSet.has eq_dec x (JSSet.clear s) = false.
Proof. induction s as [|e s IH]; simpl; auto. Qed.

Lemma size_clear s : JSSet.size (JSSet.clear s) = 0.
Proof.
  rewrite JSSetFacts.size_elements, JSSetFacts.elements_clear. reflexivity.
Qed.

Lemma length_filter_out x (l : list A) :
  NoDup l ->
  length (filter (fun y => negb (if eq_dec x y then true else false)) l) =
  length l - (if in_dec eq_dec x l then 1 else 0).
Proof.
  induction 1 as [|z l Hz N IH]; simpl; [reflexivity|].
  destruct (eq_dec z x) as [->|Hzx].
  - destruct (eq_dec x x) as [_|C]; [|congruence]. simpl.
    rewrite IH. destruct (in_dec eq_dec x l); [contradiction|]. lia.
  - destruct (eq_dec x z) as [->|_]; [congruence|]. simpl. rewrite IH.
    destruct (in_dec eq_dec x l) as [I|_]; [|lia].
    destruct l; [contradiction | simpl; lia].
Qed.

Lemma size_delete x s :
  JSSet.wf s ->
  JSSet.size (snd (JSSet.delete eq_dec x s)) =
  JSSet.size s - (if JSSet.has eq_dec x s then 1 else 0).
Proof.
  intros W. rewrite !JSSetFacts.size_elements, JSSetFacts.elements_delete.
  rewrite length_filter_out by exact W.
  destruct (in_dec eq_dec x (JSSet.elements s)) as [I|I].
  - apply (JSSetFacts.has_In eq_dec) in I. rewrite I. reflexivity.
  - apply (JSSetFacts.has_false_In eq_dec) in I. rewrite I. reflexivity.
Qed.

(** A walk over empty slots only does nothing and ends. *)
Lemma walk_blank {M : Type} (entries : M -> JSSet.SetData (A := A))
    (body : A -> M -> completion unit * M) fuel :
  forall index (m : M),
    (forall i, nth i (entries m) None = None) ->
    length (entries m) <= fuel + index ->
    JSSet.walk entries body fuel index m = (Some (Normal tt), m).
Proof.
  induction fuel as [|fuel IH]; intros index m B F.
  - apply JSSetFacts.walk_end. lia.
  - destruct (Nat.le_gt_cases (length (entries m)) index) as [L|L].
    { apply JSSetFacts.walk_end. exact L. }
    rewrite (@JSSetFacts.walk_empty_slot _ _ entries body fuel index m L (B index)).
    apply IH; [exact B | lia].
Qed.

Lemma nth_clear s i : nth i (JSSet.clear s) None = None.
Proof.
  revert i. induction s as [|e s IH]; intros [|i]; simpl; auto.
Qed.
End WithElem.
End RegistryFacts.

Section Requests.
Context {T U : Type} (obj : ref -> Observable.Observer T U).
Implicit Types (s : store U) (m : Observable.machine T U) (o : ref).

(** X1.  After [clearObservers] nobody is registered: the count is zero,
    [hasObserver] answers no for every object, and a notification returns
    normally without calling anybody or writing anything, whatever the
    observers that were registered would have done. *)
Theorem clear_leaves_nobody fuel (d : T) m :
  let cleared := snd (Observable.clearObservers (Observable.mem m)) in
  Observable.getObserverCount cleared = 0 /\
  (forall o, Observable.hasObserver o cleared = false) /\
  (length (observers (Observable.mem m)) <= fuel ->
   Observable.notifyObservers obj fuel d (Observable.set_mem cleared m) =
   (Some (Normal tt),
    Observable.mkMachine cleared (Observable.console m) (Observable.calls m)
      (Observable.notified m ++ [d]))).
Proof.
  intros cleared. split; [|split].
  - apply RegistryFacts.size_clear.
  - intros o. apply RegistryFacts.has_clear.
  - intros F. unfold Observable.notifyObservers.
    apply (RegistryFacts.walk_blank
             (fun m : Observable.machine T U => observers (Observable.mem m))).
    + intros i. apply RegistryFacts.nth_clear.
    + simpl. rewrite JSSetFacts.length_clear. lia.
Qed.

(** X2.  [hasObserver] follows the requests: yes after [addObserver] of the
    object, no after its [removeObserver], and a request about one object
    never changes the answer for another. *)
Theorem membership_follows_requests o o' s :
  Observable.hasObserver o (snd (Observable.addObserver o s)) = true /\
  Observable.hasObserver o (snd (Observable.removeObserver o s)) = false /\
  (o <> o' ->
   Observable.hasObserver o' (snd (Observable.addObserver o s)) =
     Observable.hasObserver o' s /\
   Observable.hasObserver o' (snd (Observable.removeObserver o s)) =
     Observable.hasObserver o' s).
Proof.
  unfold Observable.hasObserver. simpl. split; [|split].
  - apply JSSetFacts.has_add_same.
  - apply (JSSetFacts.has_delete_same ref_dec).
  - intros H. split.
    + rewrite JSSetFacts.has_add.
      destruct (ref_dec o' o) as [->|_]; [congruence | apply orb_false_r].
    + apply (RegistryFacts.has_delete_other ref_dec). exact H.
Qed.

(** X3.  [getObserverCount] counts the registered objects: [removeObserver]
    lowers it by one when the object was registered and leaves it otherwise,
    [addObserver] raises it by one when the object was not registered and
    leaves it otherwise. *)
Theorem count_follows_membership o s :
  JSSet.wf (observers s) ->
  Observable.getObserverCount s = length (JSSet.elements (observers s)) /\
  Observable.getObserverCount (snd (Observable.removeObserver o s)) =
    Observable.getObserverCount s -
    (if Observable.hasObserver o s then 1 else 0) /\
  Observable.getObserverCount (snd (Observable.addObserver o s)) =
    Observable.getObserverCount s +
    (if Observable.hasObserver o s then 0 else 1).
Proof.
  intros W. unfold Observable.getObserverCount, Observable.hasObserver. simpl.
  split; [apply JSSetFacts.size_elements|]. split.
  - apply (RegistryFacts.size_delete ref_dec). exact W.
  - rewrite JSSetFacts.size_add.
    destruct (JSSet.has ref_dec o (observers s)); lia.
Qed.

Lemma enrol_perform (q : Registry.request) s :
  JSSet.elements (observers (Registry.perform q s)) =
  Registry.enrol q (JSSet.elements (observers s)).
Proof.
  destruct q as [o|o|]; simpl.
  - unfold JSSet.add.
    destruct (in_dec ref_dec o (JSSet.elements (observers s))) as [I|I].
    + apply (JSSetFacts.has_In ref_dec) in I. rewrite I. reflexivity.
    + apply (JSSetFacts.has_false_In ref_dec) in I. rewrite I.
      rewrite JSSetFacts.elements_app. reflexivity.
  - change (map _ (observers s))
      with (snd (JSSet.delete ref_dec o (observers s))).
    rewrite JSSetFacts.elements_delete. apply filter_ext. intros r.
    destruct (ref_dec o r) as [->|H].
    + rewrite Nat.eqb_refl. reflexivity.
    + apply Nat.eqb_neq in H. rewrite H. reflexivity.
  - apply JSSetFacts.elements_clear.
Qed.

Lemma wf_perform (q : Registry.request) s :
  JSSet.wf (observers s) -> JSSet.wf (observers (Registry.perform q s)).
Proof.
  destruct q as [o|o|]; simpl; intros W.
  - apply JSSetFacts.wf_add, W.
  - apply (JSSetFacts.wf_delete ref_dec o), W.
  - apply JSSetFacts.wf_clear.
Qed.

Lemma length_perform (q : Registry.request) s :
  length (observers (Registry.perform q s)) <= S (length (observers s)).
Proof.
  destruct q as [o|o|]; simpl.
  - unfold JSSet.add. destruct (JSSet.has ref_dec o (observers s)); [lia|].
    rewrite length_app. simpl. lia.
  - rewrite length_map. lia.
  - rewrite JSSetFacts.length_clear. lia.
Qed.

Lemma perform_all_roster (qs : list Registry.request) :
  forall s,
    JSSet.wf (observers s) ->
    JSSet.elements (observers (Registry.perform_all qs s)) =
      Registry.roster qs (JSSet.elements (observers s)) /\
    JSSet.wf (observers (Registry.perform_all qs s)) /\
    length (observers (Registry.perform_all qs s)) <=
      length (observers s) + length qs.
Proof.
  induction qs as [|q qs IH]; simpl; intros s W.
  - split; [reflexivity|]. split; [exact W | lia].
  - destruct (IH (Registry.perform q s) (wf_perform q s W)) as [E [W' L]].
    rewrite E, enrol_perform. split; [reflexivity|]. split; [exact W'|].
    pose proof (length_perform q s). lia.
Qed.

(** X4.  Whatever series of [addObserver], [removeObserver] and
    [clearObservers] is made, the set behaves as a list without repetition
    kept in the order of registration: the registered objects are those of
    the roster, no object is registered twice, and the count is the length of
    the roster. *)
Theorem requests_refine_roster (qs : list Registry.request) s :
  JSSet.wf (observers s) ->
  let s' := Registry.perform_all qs s in
  JSSet.elements (observers s') =
    Registry.roster qs (JSSet.elements (observers s)) /\
  NoDup (Registry.roster qs (JSSet.elements (observers s))) /\
  Observable.getObserverCount s' =
    length (Registry.roster qs (JSSet.elements (observers s))) /\
  forall o,
    Observable.hasObserver o s' = true <->
    In o (Registry.roster qs (JSSet.elements (observers s))).
Proof.
  intros W s'. destruct (perform_all_roster qs s W) as [E [W' _]].
  fold s' in E, W'. split; [exact E|]. split; [|split].
  - rewrite <- E. exact W'.
  - unfold Observable.getObserverCount.
    rewrite JSSetFacts.size_elements, E. reflexivity.
  - intros o. unfold Observable.hasObserver.
    rewrite (JSSetFacts.has_In ref_dec), E. reflexivity.
Qed.

End Requests.

(** * What is written when observers fail *)

Section Diagnostics.
Context {T U : Type} (obj : ref -> Observable.Observer T U).
Implicit Types (m : Observable.machine T U) (x : T).

(** The line of the [catch] for an observer whose [update] completes with
    [c]; none when it returns. *)
Local Abbreviation report r c :=
  (match c with
   | Normal _ => []
   | Throw e => [Observable.error_line obj r e]
   end).

Lemma visit_console x (out : ref -> completion unit) (rs : list ref) :
  (forall r, In r rs ->
             forall s, fst (Observable.update (obj r) x s) = out r) ->
  forall m,
    Observable.console (JSSet.visit (Observable.notify_one obj x) rs m) =
    Observable.console m ++ flat_map (fun r => report r (out r)) rs.
Proof.
  induction rs as [|r rs IH]; simpl; intros O m.
  - rewrite app_nil_r. reflexivity.
  - rewrite IH by (intros; apply O; auto).
    rewrite ObservableFacts.notify_one_console, O by auto.
    rewrite <- app_assoc. reflexivity.
Qed.

End Diagnostics.

(** * Loggers *)

Section Loggers.
Context {D : Type} (ids : ref -> string).
Implicit Types (m : Observable.machine (Event D) (EventLogger.memory (D := D))).

(** Every object is an [EventLogger]. *)
Local Abbreviation loggers :=
  (fun r : ref => EventLogger.observer (D := D) (ids r) r).

Lemma logger_quiet r : Observable.quiet (loggers r).
Proof. intros d s. reflexivity. Qed.

Lemma visit_logs (e : Event D) (rs : list ref) r :
  forall m,
    EventLogger.getLogs r
      (Observable.mem (JSSet.visit (Observable.notify_one loggers e) rs m)) =
    EventLogger.getLogs r (Observable.mem m) ++
    repeat e (count_occ ref_dec rs r).
Proof.
  induction rs as [|r0 rs IH]; intros m.
  - simpl. rewrite app_nil_r. reflexivity.
  - change (JSSet.visit (Observable.notify_one loggers e) (r0 :: rs) m)
      with (JSSet.visit (Observable.notify_one loggers e) rs
              (snd (Observable.notify_one loggers e r0 m))).
    rewrite IH, ObservableFacts.notify_one_mem.
    unfold EventLogger.getLogs. cbn [count_occ]. simpl.
    destruct (ref_dec r0 r) as [->|H].
    + rewrite Nat.eqb_refl, <- app_assoc. reflexivity.
    + assert (E : Nat.eqb r r0 = false) by (apply Nat.eqb_neq; congruence).
      rewrite E. reflexivity.
Qed.

Lemma count_registered (s : JSSet.SetData (A := ref)) r :
  JSSet.wf s ->
  count_occ ref_dec (JSSet.elements s) r =
  if JSSet.has ref_dec r s then 1 else 0.
Proof.
  intros W. destruct (JSSet.has ref_dec r s) eqn:E.
  - apply (JSSetFacts.has_In ref_dec) in E.
    apply (proj1 (NoDup_count_occ' ref_dec _) W), E.
  - apply (JSSetFacts.has_false_In ref_dec) in E.
    apply count_occ_not_In, E.
Qed.

(** One notification of loggers: each registered logger gets the event
    once; the registration set stays. *)
Lemma notify_loggers fuel (e : Event D) m r :
  JSSet.wf (observers (Observable.mem m)) ->
  length (observers (Observable.mem m)) <= fuel ->
  let m' := snd (Observable.notifyObservers loggers fuel e m) in
  observers (Observable.mem m') = observers (Observable.mem m) /\
  EventLogger.getLogs r (Observable.mem m') =
    EventLogger.getLogs r (Observable.mem m) ++
    (if Observable.hasObserver r (Observable.mem m) then [e] else []).
Proof.
  intros W F m'. subst m'.
  rewrite (notify_quiet loggers fuel e m (fun r _ => logger_quiet r) F).
  simpl. split.
  - assert (C : Forall
                  (JSSet.calm
                     (fun m : Observable.machine (Event D) EventLogger.memory =>
                        observers (Observable.mem m))
                     (Observable.notify_one loggers e))
                  (JSSet.elements (observers (Observable.mem m)))).
    { apply Forall_forall. intros r0 _.
      apply ObservableFacts.quiet_calm, logger_quiet. }
    exact (@JSSetFacts.visit_entries _ _ _ _ _ C
             (Observable.mkMachine (Observable.mem m) (Observable.console m)
                (Observable.calls m) (Observable.notified m ++ [e]))).
  - rewrite visit_logs. simpl. rewrite (count_registered _ r W).
    unfold Observable.hasObserver.
    destruct (JSSet.has ref_dec r (observers (Observable.mem m))); reflexivity.
Qed.


End Loggers.

Section FreshFilter.
Context {D U : Type} (obj : ref -> Observable.Observer (Event D) U).

(** X9.  A filter just built passes an event exactly when its type is one
    of the strings handed to the constructor; nobody is subscribed to its
    emitter, and until somebody is, [update] returns normally and reaches
    nobody. *)
Theorem fresh_filter (id : string) (types : list string) (h : U)
    fuel now (event : Event D) :
  let this := EventFilter.new (D := D) id types h in
  (JSSet.has string_dec (type event) (EventFilter.allowedTypes this) = true
   <-> In (type event) types) /\
  Observable.getObserverCount
    (Observable.mem (EventFilter.getFilteredEmitter this)) = 0 /\
  fst (EventFilter.update obj fuel now event this) = Some (Normal tt) /\
  Observable.calls
    (EventFilter.filteredEmitter
       (snd (EventFilter.update obj fuel now event this))) = [].
Proof.
  intros this. split; [apply JSSetFacts.has_of_list|].
  split; [reflexivity|].
  unfold EventFilter.update.
  destruct (JSSet.has string_dec (type event) (EventFilter.allowedTypes this));
    [|split; reflexivity].
  unfold EventEmitter.emit, Observable.notifyObservers. simpl.
  rewrite JSSetFacts.walk_end by (simpl; lia). split; reflexivity.
Qed.
End FreshFilter.

(** * The weather station *)

Section Forecast.
Context {number : Type}.
Variable sub : number -> number -> number.
Variable gt lt : number -> number -> bool.
Variable neg : number -> number.
Variable of_decimal : string -> number.
Implicit Types (this : Weather.WeatherForecast (number := number))
               (w p l : Weather.WeatherData (number := number)).

Local Abbreviation update := (Weather.update sub gt lt neg of_decimal).
Local Abbreviation update_all := (Weather.update_all sub gt lt neg of_decimal).
Local Abbreviation generateForecast :=
  (Weather.generateForecast sub gt lt neg of_decimal).

Lemma nth_error_last_two {X : Type} (xs : list X) (a b : X) :
  nth_error (xs ++ [a; b]) (length (xs ++ [a; b]) - 1) = Some b /\
  nth_error (xs ++ [a; b]) (length (xs ++ [a; b]) - 2) = Some a.
Proof.
  rewrite length_app. simpl. split.
  - rewrite nth_error_app2 by lia.
    replace (length xs + 2 - 1 - length xs) with 1 by lia. reflexivity.
  - rewrite nth_error_app2 by lia.
    replace (length xs + 2 - 2 - length xs) with 0 by lia. reflexivity.
Qed.

(** With two readings or more, the forecast is read off the last two. *)
Lemma generateForecast_last_two (i : string) xs p l :
  generateForecast (Weather.mkWeatherForecast i (xs ++ [p; l])) =
  generateForecast (Weather.mkWeatherForecast i [p; l]).
Proof.
  unfold Weather.generateForecast. cbn [Weather.history].
  destruct (nth_error_last_two xs p l) as [E1 E2]. rewrite E1, E2.
  assert (L : (length (xs ++ [p; l]) <? 2) = false).
  { apply Nat.ltb_ge. rewrite length_app. simpl. lia. }
  rewrite L. reflexivity.
Qed.

Lemma generateForecast_returns this :
  exists forecast, generateForecast this = Normal forecast.
Proof.
  destruct this as [i h]. unfold Weather.generateForecast.
  cbn [Weather.history].
  destruct (length h <? 2) eqn:L; [eauto|]. apply Nat.ltb_ge in L.
  destruct (nth_error h (length h - 1)) as [latest|] eqn:E1;
    [|apply nth_error_None in E1; lia].
  destruct (nth_error h (length h - 2)) as [previous|] eqn:E2;
    [|apply nth_error_None in E2; lia].
  repeat match goal with |- context [if ?b then _ else _] => destruct b end;
    eauto.
Qed.

Lemma update_history w this :
  Weather.history (snd (update w this)) =
  if 10 <? length (Weather.history this ++ [w])
  then tl (Weather.history this ++ [w])
  else Weather.history this ++ [w].
Proof.
  unfold Weather.update.
  destruct (generateForecast _); reflexivity.
Qed.

Lemma update_id w this :
  Weather.id (snd (update w this)) = Weather.id this.
Proof.
  unfold Weather.update.
  destruct (generateForecast _); reflexivity.
Qed.

Lemma update_returns w this :
  exists line, fst (update w this) = Normal line.
Proof.
  unfold Weather.update.
  destruct (generateForecast_returns
              (Weather.mkWeatherForecast (Weather.id this)
                 (if 10 <? length (Weather.history this ++ [w])
                  then tl (Weather.history this ++ [w])
                  else Weather.history this ++ [w]))) as [f E].
  rewrite E. simpl. eexists. reflexivity.
Qed.

(** The last ten of the readings kept and the new one. *)
Lemma update_last_ten w this (seen : list (Weather.WeatherData (number := number))) :
  Weather.history this = skipn (length seen - 10) seen ->
  Weather.history (snd (update w this)) =
  skipn (length (seen ++ [w]) - 10) (seen ++ [w]).
Proof.
  intros H. rewrite update_history, H.
  rewrite !length_app, length_skipn. simpl.
  destruct (Nat.le_gt_cases (length seen) 9) as [L|L].
  - replace (length seen - 10) with 0 by lia.
    replace (length seen + 1 - 10) with 0 by lia. simpl.
    destruct (Nat.ltb_spec 10 (length seen - 0 + 1)); [lia | reflexivity].
  - destruct (Nat.ltb_spec 10 (length seen - (length seen - 10) + 1)); [|lia].
    replace (length seen + 1 - 10) with (1 + (length seen - 10)) by lia.
    rewrite <- skipn_skipn. simpl (skipn 1 _).
    rewrite skipn_app.
    replace (length seen - 10 - length seen) with 0 by lia. reflexivity.
Qed.

Lemma update_all_last_ten ws :
  forall this (seen : list (Weather.WeatherData (number := number))),
    Weather.history this = skipn (length seen - 10) seen ->
    (exists lines,
        fst (update_all ws this) = Normal lines /\ length lines = length ws) /\
    Weather.history (snd (update_all ws this)) =
      skipn (length (seen ++ ws) - 10) (seen ++ ws) /\
    Weather.id (snd (update_all ws this)) = Weather.id this.
Proof.
  induction ws as [|w ws IH]; intros this seen H; cbn [Weather.update_all].
  - rewrite app_nil_r. split; [exists []; auto|]. auto.
  - destruct (update_returns w this) as [line E].
    pose proof (update_last_ten w this seen H) as H1.
    pose proof (update_id w this) as I1.
    destruct (update w this) as [c this1]. simpl in E, H1, I1. subst c.
    destruct (IH this1 (seen ++ [w]) H1) as [[lines [R Ll]] [Hh Hi]].
    destruct (update_all ws this1) as [c this2]. simpl in R, Hh, Hi. subst c.
    simpl. split; [exists (line :: lines); simpl; auto|].
    rewrite <- app_assoc in Hh. split; [exact Hh | congruence].
Qed.

(** X10.  A forecaster keeps the last ten readings it was given, oldest
    first, and none older; no series of readings makes [update] throw, and
    every reading has its line printed. *)
Theorem forecast_keeps_last_ten (i : string)
    (ws : list (Weather.WeatherData (number := number))) :
  let run := update_all ws (Weather.newForecast i) in
  (exists lines, fst run = Normal lines /\ length lines = length ws) /\
  Weather.history (snd run) = skipn (length ws - 10) ws /\
  length (Weather.history (snd run)) = Nat.min (length ws) 10.
Proof.
  intros run. subst run.
  destruct (update_all_last_ten ws (Weather.newForecast i) [] eq_refl)
    as [R [H _]].
  simpl in H. split; [exact R|]. split; [exact H|].
  rewrite H, length_skipn. lia.
Qed.

(** X11.  The first reading of a forecaster is answered with "Not enough
    data"; from the second reading on the forecast depends on nothing but the
    reading before and the new one, whatever else the history holds. *)
Theorem forecast_reads_last_two (i : string) this p l :
  fst (update l (Weather.newForecast i)) =
    Normal ("[" ++ i ++ "] Weather Forecast: Not enough data")%string /\
  (forall xs,
      Weather.history this = xs ++ [p] ->
      fst (update l this) =
      fst (update l (Weather.mkWeatherForecast (Weather.id this) [p]))).
Proof.
  split; [reflexivity|].
  intros xs H. unfold Weather.update. rewrite H.
  rewrite <- app_assoc. cbn [app].
  assert (G : generateForecast
                (Weather.mkWeatherForecast (Weather.id this)
                   (if 10 <? length (xs ++ [p; l])
                    then tl (xs ++ [p; l]) else xs ++ [p; l])) =
              generateForecast
                (Weather.mkWeatherForecast (Weather.id this) [p; l])).
  { destruct (10 <? length (xs ++ [p; l])) eqn:B.
    - apply Nat.ltb_lt in B. rewrite length_app in B. simpl in B.
      destruct xs as [|x xs]; [simpl in B; lia|].
      cbn [app tl]. apply generateForecast_last_two.
    - apply generateForecast_last_two. }
  rewrite G. cbn [Weather.id Weather.history app].
  change (10 <? length [p; l]) with false. cbv iota.
  destruct (generateForecast
              (Weather.mkWeatherForecast (Weather.id this) [p; l]));
    reflexivity.
Qed.
End Forecast.

Section Station.
Context {number U : Type}.
Variable of_decimal : string -> number.
Variable obj :
  ref -> Observable.Observer (Weather.WeatherData (number := number)) U.
Implicit Types (this : Weather.WeatherStation (number := number) U).

End Station.

(** * The stock market *)

Section Stocks.
Context {number U : Type}.
Variable sub mul div : number -> number -> number.
Variable ge : number -> number -> bool.
Variable truthy : number -> bool.
Variable show toFixed2 : number -> string.
Variable of_decimal : string -> number.
Variable obj :
  ref -> Observable.Observer (StockMarket.StockData (number := number)) U.
Implicit Types (this : StockMarket.Stock (number := number) U).

Local Abbreviation setPrice := (StockMarket.setPrice sub mul div of_decimal obj).

Lemma last_cons {X : Type} (l : list X) (a d : X) :
  last (a :: l) d = last l a.
Proof.
  revert a d. induction l as [|b l IH]; intros a d; [reflexivity|].
  change (last (a :: b :: l) d) with (last (b :: l) d).
  rewrite !IH. reflexivity.
Qed.

Lemma setPrice_effect fuel now volume newPrice this :
  let this' := snd (setPrice fuel now volume newPrice this) in
  StockMarket.getPrice this' = newPrice /\
  StockMarket.getSymbol this' = StockMarket.getSymbol this /\
  StockMarket.previousPrice this' = StockMarket.getPrice this /\
  Observable.notified (StockMarket.subject this') =
    Observable.notified (StockMarket.subject this) ++
    StockMarket.quotes sub mul div of_decimal (StockMarket.getSymbol this) (StockMarket.getPrice this)
           [(now, volume, newPrice)].
Proof.
  intros this'. subst this'. unfold StockMarket.setPrice.
  match goal with
  | |- context [Observable.notifyObservers obj fuel ?q ?m] =>
      pose proof (ObservableFacts.walk_extends obj q fuel 0
                    (Observable.mkMachine (Observable.mem m)
                       (Observable.console m) (Observable.calls m)
                       (Observable.notified m ++ [q]))) as [_ [_ N]];
      unfold Observable.notifyObservers; cbv zeta in N; simpl in N;
      destruct (JSSet.walk _ _ fuel 0 _) as [c m']
  end.
  simpl in *. repeat split. exact N.
Qed.

(** X13.  Every [setPrice] publishes one quote, and the change of a quote
    is measured against the price set by the call before it (against the
    initial price for the first call); afterwards [getPrice] is the last
    price set, and the symbol never changes.  This holds whatever the
    observers do. *)
Theorem prices_chain fuel (calls : list (nat * number * number)) this :
  let this' :=
    StockMarket.setPrice_all sub mul div of_decimal obj fuel calls this in
  Observable.notified (StockMarket.subject this') =
    Observable.notified (StockMarket.subject this) ++
    StockMarket.quotes sub mul div of_decimal (StockMarket.getSymbol this) (StockMarket.getPrice this) calls /\
  StockMarket.getPrice this' =
    last (map snd calls) (StockMarket.getPrice this) /\
  StockMarket.getSymbol this' = StockMarket.getSymbol this.
Proof.
  intros this'. subst this'. revert this.
  induction calls as [|[[now volume] newPrice] calls IH]; intros this;
    cbn [StockMarket.setPrice_all StockMarket.quotes map snd].
  - rewrite app_nil_r. auto.
  - destruct (setPrice_effect fuel now volume newPrice this)
      as [P [S [_ N]]].
    destruct (IH (snd (setPrice fuel now volume newPrice this)))
      as [N' [P' S']].
    rewrite N', P', S', N, P, S. cbn [StockMarket.quotes]. rewrite <- app_assoc.
    split; [reflexivity|]. split; [|reflexivity].
    symmetry. apply last_cons.
Qed.

Local Abbreviation update :=
  (StockMarket.update mul ge truthy show toFixed2 of_decimal).

Lemma Map_get_set_same (key : string) (value : number) entries :
  StockMarket.Map_get key (StockMarket.Map_set key value entries) = Some value.
Proof.
  induction entries as [|[k v] entries IH]; simpl.
  - rewrite String.eqb_refl. reflexivity.
  - destruct (String.eqb k key) eqn:E; simpl; rewrite E; auto.
Qed.

Lemma Map_get_set_other (key key' : string) (value : number) entries :
  key <> key' ->
  StockMarket.Map_get key' (StockMarket.Map_set key value entries) =
  StockMarket.Map_get key' entries.
Proof.
  intros H. induction entries as [|[k v] entries IH]; simpl.
  - apply String.eqb_neq in H. rewrite H. reflexivity.
  - destruct (String.eqb k key) eqn:E; simpl.
    + apply String.eqb_eq in E. subst k.
      apply String.eqb_neq in H. rewrite H. reflexivity.
    + destruct (String.eqb k key'); auto.
Qed.

(** X14.  A tracker prints a line for a stock exactly when it holds a
    number of shares of that symbol that counts as true: nothing for a
    symbol it was never given, nothing for a holding of zero, and after
    several [addHolding] of one symbol the last number of shares is the one
    that counts; holdings of other symbols do not matter. *)
Theorem tracker_reports_latest_holding (sym : string) (shares : number)
    (stock : StockMarket.StockData (number := number))
    (tracker : StockMarket.PortfolioTracker (number := number)) (i : string) :
  update stock (StockMarket.newTracker i) = None /\
  (StockMarket.symbol stock = sym ->
   update stock (StockMarket.addHolding sym shares tracker) =
   if truthy shares
   then Some (StockMarket.portfolio_line mul ge show toFixed2 of_decimal
                tracker stock shares)
   else None) /\
  (StockMarket.symbol stock <> sym ->
   update stock (StockMarket.addHolding sym shares tracker) =
   update stock tracker).
Proof.
  split; [reflexivity|]. split.
  - intros <-. unfold StockMarket.update, StockMarket.addHolding.
    cbn [StockMarket.holdings]. rewrite Map_get_set_same.
    destruct (truthy shares); reflexivity.
  - intros H. unfold StockMarket.update, StockMarket.addHolding.
    cbn [StockMarket.holdings].
    rewrite Map_get_set_other by congruence.
    destruct (StockMarket.Map_get _ _); reflexivity.
Qed.
End Stocks.

(** * Asynchronous bodies *)

Section AsyncBodies.
Context {T U : Type} (aobj : ref -> AsyncObservable.AsyncObserver T U).
Implicit Types (m : AsyncObservable.machine T U) (d : T)
               (t : AsyncObservable.task U).

Lemma start_all_suspending d (snapshot : list ref) :
  (forall r, In r snapshot ->
             AsyncTraits.suspends (AsyncObservable.updateAsync (aobj r) d)) ->
  forall m done flying m',
    AsyncObservable.start_all aobj d snapshot m = (done, flying, m') ->
    done = [] /\
    AsyncObservable.trace m' =
      AsyncObservable.trace m ++
      map (fun r => AsyncObservable.Invoked r d) snapshot.
Proof.
  induction snapshot as [|r rest IH]; intros S m done flying m' E;
    cbn [AsyncObservable.start_all] in E.
  - inversion E; subst. rewrite app_nil_r. auto.
  - unfold AsyncObservable.start_one in E. cbv zeta in E.
    destruct (S r (or_introl eq_refl)
                (AsyncObservable.mem
                   (AsyncObservable.record (AsyncObservable.Invoked r d) m)))
      as [step [next A]].
    destruct (AsyncObservable.advance _ _) as [s' t']. simpl in A. subst t'.
    destruct (AsyncObservable.start_all aobj d rest _)
      as [[done1 flying1] m2] eqn:E2.
    destruct (IH (fun r0 H => S r0 (or_intror H)) _ _ _ _ E2) as [D Tr].
    inversion E; subst. split; [reflexivity|].
    rewrite Tr. simpl. rewrite <- app_assoc. reflexivity.
Qed.

(** X15.  In the parallel mode every observer is started before any of
    them completes: when the bodies of the observers of the snapshot all
    reach an [await], the call first invokes all of them, in entry order,
    and only then do promises settle. *)
Theorem parallel_starts_all_first sched d m :
  (forall r, In r (JSSet.elements (observers (AsyncObservable.mem m))) ->
             AsyncTraits.suspends (AsyncObservable.updateAsync (aobj r) d)) ->
  exists settled,
    AsyncObservable.trace
      (snd (AsyncObservable.notifyObservers aobj sched d m)) =
    AsyncObservable.trace m ++
    map (fun r => AsyncObservable.Invoked r d)
        (JSSet.elements (observers (AsyncObservable.mem m))) ++
    settled /\
    AsyncObservable.invocations settled = [].
Proof.
  intros S. unfold AsyncObservable.notifyObservers.
  destruct (AsyncObservable.start_all aobj d _ m)
    as [[done flying] m1] eqn:E1.
  destruct (start_all_suspending d _ S _ _ _ _ E1) as [D Tr]. subst done.
  destruct (AsyncObservable.Promise_all aobj sched [] flying m1)
    as [res m'] eqn:E2.
  destruct (@AsyncFacts.Promise_all_spec _ _ aobj sched [] flying m1 res m'
              eq_refl E2) as [_ [tr2 [T2 [I2 _]]]].
  exists tr2. simpl. rewrite T2, Tr, <- app_assoc. auto.
Qed.

Lemma clean_refl m : AsyncTraits.clean m m.
Proof. split; [reflexivity|]. exists []. rewrite app_nil_r. auto. Qed.

Lemma clean_trans m1 m2 m3 :
  AsyncTraits.clean m1 m2 -> AsyncTraits.clean m2 m3 -> AsyncTraits.clean m1 m3.
Proof.
  intros [C1 [tr1 [T1 F1]]] [C2 [tr2 [T2 F2]]]. split; [congruence|].
  exists (tr1 ++ tr2). rewrite T2, T1, <- app_assoc.
  split; [reflexivity | apply Forall_app; auto].
Qed.

Lemma clean_set_mem s m : AsyncTraits.clean m (AsyncObservable.set_mem s m).
Proof. split; [reflexivity|]. exists []. simpl. rewrite app_nil_r. auto. Qed.

Lemma clean_invoked r d m :
  AsyncTraits.clean m (AsyncObservable.record (AsyncObservable.Invoked r d) m).
Proof.
  split; [reflexivity|]. exists [AsyncObservable.Invoked r d].
  split; [reflexivity|]. repeat constructor.
Qed.

Lemma clean_settle r m :
  AsyncTraits.clean m (snd (AsyncObservable.settle aobj r (Normal tt) m)).
Proof.
  split; [reflexivity|]. exists [AsyncObservable.Settled r (Normal tt)].
  split; [reflexivity|]. repeat constructor.
Qed.

Lemma advance_fulfils t s :
  AsyncTraits.fulfils t ->
  AsyncTraits.fulfils (snd (AsyncObservable.advance t s)).
Proof. destruct t as [c|step next]; simpl; auto. Qed.

Lemma run_task_fulfils t :
  forall s, AsyncTraits.fulfils t ->
            fst (AsyncObservable.run_task t s) = Normal tt.
Proof.
  induction t as [c|step next IH]; simpl; intros s F; [exact F|].
  apply IH, F.
Qed.

Local Abbreviation sound :=
  (fun q : ref * AsyncObservable.task U => AsyncTraits.fulfils (snd q)).

Lemma start_one_clean d r m :
  AsyncTraits.fulfils (AsyncObservable.updateAsync (aobj r) d) ->
  AsyncTraits.clean m (snd (AsyncObservable.start_one aobj d r m)) /\
  match fst (AsyncObservable.start_one aobj d r m) with
  | inl _ => True
  | inr q => sound q
  end.
Proof.
  intros F. unfold AsyncObservable.start_one. cbv zeta.
  pose proof (advance_fulfils _
                (AsyncObservable.mem
                   (AsyncObservable.record (AsyncObservable.Invoked r d) m)) F)
    as F'.
  destruct (AsyncObservable.advance _ _) as [s' [c|step next]]; simpl in F'.
  - subst c.
    pose proof (clean_settle r
                  (AsyncObservable.set_mem s'
                     (AsyncObservable.record (AsyncObservable.Invoked r d) m)))
      as C.
    destruct (AsyncObservable.settle aobj r (Normal tt) _) as [cw m2].
    simpl in *. split; [|exact I].
    eapply clean_trans; [apply clean_invoked|].
    eapply clean_trans; [apply clean_set_mem | exact C].
  - simpl. split; [|exact F'].
    eapply clean_trans; [apply clean_invoked | apply clean_set_mem].
Qed.

Lemma start_all_clean d (snapshot : list ref) :
  (forall r, In r snapshot ->
             AsyncTraits.fulfils (AsyncObservable.updateAsync (aobj r) d)) ->
  forall m done flying m',
    AsyncObservable.start_all aobj d snapshot m = (done, flying, m') ->
    AsyncTraits.clean m m' /\ Forall sound flying.
Proof.
  induction snapshot as [|r rest IH]; intros S m done flying m' E;
    cbn [AsyncObservable.start_all] in E.
  - inversion E; subst. split; [apply clean_refl | constructor].
  - destruct (start_one_clean d r m (S r (or_introl eq_refl))) as [C1 K1].
    destruct (AsyncObservable.start_one aobj d r m) as [res m1].
    destruct (AsyncObservable.start_all aobj d rest m1)
      as [[done1 flying1] m2] eqn:E2.
    destruct (IH (fun r0 H => S r0 (or_intror H)) _ _ _ _ E2) as [C2 K2].
    simpl in C1, K1.
    destruct res as [cw|q]; inversion E; subst;
      (split; [eapply clean_trans; eassumption|]); auto.
Qed.

Lemma resume_head_clean r t rest m p' done m' :
  AsyncTraits.fulfils t -> Forall sound rest ->
  AsyncObservable.resume_head aobj r t rest m = (p', done, m') ->
  AsyncTraits.clean m m' /\ Forall sound p'.
Proof.
  intros F Fr. unfold AsyncObservable.resume_head.
  pose proof (advance_fulfils t (AsyncObservable.mem m) F) as F'.
  destruct (AsyncObservable.advance t (AsyncObservable.mem m))
    as [s' [c|step next]]; simpl in F'.
  - subst c.
    pose proof (clean_settle r (AsyncObservable.set_mem s' m)) as C.
    destruct (AsyncObservable.settle aobj r (Normal tt) _) as [cw m2].
    simpl in C. intros H. inversion H; subst. split; [|exact Fr].
    eapply clean_trans; [apply clean_set_mem | exact C].
  - intros H. inversion H; subst. split; [apply clean_set_mem|].
    constructor; assumption.
Qed.

Lemma resume_clean (p : AsyncObservable.pool (U := U)) :
  Forall sound p ->
  forall i m p' done m',
    AsyncObservable.resume aobj i p m = (p', done, m') ->
    AsyncTraits.clean m m' /\ Forall sound p'.
Proof.
  induction 1 as [|[r t] rest K Kr IH]; intros i m p' done m' E;
    cbn [AsyncObservable.resume] in E.
  - inversion E; subst. split; [apply clean_refl | constructor].
  - destruct i as [|j];
      [exact (resume_head_clean r t rest m p' done m' K Kr E)|].
    destruct rest as [|q rest'];
      [exact (resume_head_clean r t [] m p' done m' K Kr E)|].
    destruct (AsyncObservable.resume aobj j (q :: rest') m)
      as [[rest'' done1] m1] eqn:E1.
    inversion E; subst.
    destruct (IH _ _ _ _ _ E1) as [C K2]. split; [exact C|].
    constructor; assumption.
Qed.

Lemma Promise_all_clean sched :
  forall settled (p : AsyncObservable.pool (U := U)) m,
    Forall sound p ->
    AsyncTraits.clean m
      (snd (AsyncObservable.Promise_all aobj sched settled p m)).
Proof.
  induction sched as [|i sched IH]; intros settled p m K;
    cbn [AsyncObservable.Promise_all];
    destruct (AsyncObservable.first_rejection settled); cbn [snd];
    try apply clean_refl.
  - destruct p; apply clean_refl.
  - destruct p as [|q p]; [apply clean_refl|].
    destruct (AsyncObservable.resume aobj i (q :: p) m)
      as [[p1 done1] m1] eqn:E1.
    destruct (resume_clean _ K _ _ _ _ _ E1) as [C K1].
    eapply clean_trans; [exact C | apply IH, K1].
Qed.

Lemma sequential_walk_clean d fuel :
  (forall r, AsyncTraits.fulfils (AsyncObservable.updateAsync (aobj r) d)) ->
  forall index m,
    AsyncTraits.clean m
      (snd (JSSet.walk (fun m => observers (AsyncObservable.mem m))
              (AsyncObservable.sequential_one aobj d) fuel index m)).
Proof.
  intros F. induction fuel as [|fuel IH]; intros index m; simpl.
  - destruct (length _ <=? index); apply clean_refl.
  - destruct (length _ <=? index); [apply clean_refl|].
    destruct (nth index _ None) as [r|]; [|apply IH].
    pose proof (AsyncFacts.sequential_one_normal aobj d r m) as N.
    pose proof (AsyncFacts.sequential_one_trace aobj d r m) as Tr.
    pose proof (AsyncFacts.sequential_one_console aobj d r m) as L.
    rewrite (run_task_fulfils _ (AsyncObservable.mem m) (F r)) in Tr, L.
    destruct (AsyncObservable.sequential_one aobj d r m) as [[[]|e] m1];
      simpl in N, Tr, L; [|discriminate].
    eapply clean_trans; [|apply IH].
    split; [rewrite L; apply app_nil_r|].
    eexists. split; [exact Tr|]. repeat constructor.
Qed.

End AsyncBodies.

(** * The properties above on concrete objects *)

(** A faulty observer and a silent one, cleared. *)
Lemma clear_leaves_nobody_witness :
  length (observers (Observable.mem (Scenario.subject [0; 1]))) <= 2 /\
  fst (Observable.notifyObservers (Scenario.cast Scenario.faulty) 2 7
         (Observable.set_mem
            (snd (Observable.clearObservers
                    (Observable.mem (Scenario.subject [0; 1]))))
            (Scenario.subject [0; 1]))) = Some (Normal tt).
Proof.
  assert (H : length (observers (Observable.mem (Scenario.subject [0; 1])))
              <= 2) by (simpl; lia).
  split; [exact H|].
  exact (f_equal fst
           (proj2 (proj2 (@clear_leaves_nobody nat unit
                            (Scenario.cast Scenario.faulty) 2 7
                            (Scenario.subject [0; 1]))) H)).
Defined.

Lemma membership_follows_requests_witness :
  0 <> 1 /\
  Observable.hasObserver 1
    (snd (Observable.removeObserver 0
            (Observable.mem (Scenario.subject [0; 1])))) =
  Observable.hasObserver 1 (Observable.mem (Scenario.subject [0; 1])).
Proof.
  assert (H : 0 <> 1) by discriminate.
  split; [exact H|].
  exact (proj2 (proj2 (proj2 (membership_follows_requests 0 1
                                (Observable.mem (Scenario.subject [0; 1]))))
                  H)).
Defined.

Lemma count_follows_membership_witness :
  JSSet.wf (observers (Observable.mem (Scenario.subject [0; 1]))) /\
  Observable.getObserverCount
    (snd (Observable.removeObserver 1
            (Observable.mem (Scenario.subject [0; 1])))) = 2 - 1.
Proof.
  assert (W : JSSet.wf (observers (Observable.mem (Scenario.subject [0; 1]))))
    by (repeat constructor; simpl; intuition discriminate).
  split; [exact W|].
  exact (proj1 (proj2 (count_follows_membership 1
                         (Observable.mem (Scenario.subject [0; 1])) W))).
Defined.

(** Two registrations, a removal of the first and its registration again. *)
Lemma requests_refine_roster_witness :
  JSSet.wf (observers (mkStore JSSet.empty tt)) /\
  JSSet.elements
    (observers
       (Registry.perform_all
          [Registry.Add 0; Registry.Add 1; Registry.Remove 0; Registry.Add 0]
          (mkStore JSSet.empty tt))) = [1; 0].
Proof.
  assert (W : JSSet.wf (observers (mkStore JSSet.empty tt))) by constructor.
  split; [exact W|].
  exact (proj1 (requests_refine_roster
                  [Registry.Add 0; Registry.Add 1; Registry.Remove 0;
                   Registry.Add 0]
                  (mkStore JSSet.empty tt) W)).
Defined.





(** Two readings seen, then a third. *)
Lemma forecast_reads_last_two_witness :
  fst (Weather.update Nat.sub (fun a b => Nat.ltb b a) Nat.ltb (fun n => n)
         Sample.of_decimal (Sample.reading 25 1018 2)
         (Weather.mkWeatherForecast "Forecaster"
            [Sample.reading 20 1013 0; Sample.reading 22 1015 1])) =
  fst (Weather.update Nat.sub (fun a b => Nat.ltb b a) Nat.ltb (fun n => n)
         Sample.of_decimal (Sample.reading 25 1018 2)
         (Weather.mkWeatherForecast "Forecaster" [Sample.reading 22 1015 1])).
Proof.
  exact (proj2 (@forecast_reads_last_two nat Nat.sub (fun a b => Nat.ltb b a)
                  Nat.ltb (fun n => n) Sample.of_decimal
                  "Forecaster"
                  (Weather.mkWeatherForecast "Forecaster"
                     [Sample.reading 20 1013 0; Sample.reading 22 1015 1])
                  (Sample.reading 22 1015 1) (Sample.reading 25 1018 2))
           [Sample.reading 20 1013 0] eq_refl).
Defined.


(** Ten shares of AAPL, then a quote of AAPL and one of GOOGL. *)
Lemma tracker_reports_latest_holding_witness :
  StockMarket.update Nat.mul (fun a b => Nat.leb b a)
    (fun n => negb (Nat.eqb n 0))
    (fun _ => "10"%string) (fun _ => "0.00"%string) Sample.of_decimal
    (Sample.quote "AAPL" 155 5)
    (StockMarket.addHolding "AAPL" 10 (StockMarket.newTracker "Portfolio")) =
  Some "[Portfolio] Portfolio: AAPL 10 shares = $0.00 (+$0.00)"%string /\
  StockMarket.update Nat.mul (fun a b => Nat.leb b a)
    (fun n => negb (Nat.eqb n 0))
    (fun _ => "10"%string) (fun _ => "0.00"%string) Sample.of_decimal
    (Sample.quote "GOOGL" 2800 50)
    (StockMarket.addHolding "AAPL" 10 (StockMarket.newTracker "Portfolio")) =
  None.
Proof.
  split.
  - exact (proj1 (proj2 (@tracker_reports_latest_holding nat Nat.mul
                           (fun a b => Nat.leb b a)
                           (fun n => negb (Nat.eqb n 0))
                           (fun _ => "10"%string) (fun _ => "0.00"%string)
                           Sample.of_decimal "AAPL" 10
                           (Sample.quote "AAPL" 155 5)
                           (StockMarket.newTracker "Portfolio") "Portfolio"))
             eq_refl).
  - refine (proj2 (proj2 (@tracker_reports_latest_holding nat Nat.mul
                            (fun a b => Nat.leb b a)
                            (fun n => negb (Nat.eqb n 0))
                            (fun _ => "10"%string) (fun _ => "0.00"%string)
                            Sample.of_decimal "AAPL" 10
                            (Sample.quote "GOOGL" 2800 50)
                            (StockMarket.newTracker "Portfolio") "Portfolio"))
              _).
    discriminate.
Defined.

(** Two processors notified in parallel. *)
Lemma parallel_starts_all_first_witness :
  exists settled,
    AsyncObservable.trace
      (snd (AsyncObservable.notifyObservers Sample.processors [1; 0; 0; 0] 7
              (Scenario.asubject [0; 1]))) =
    [] ++ [AsyncObservable.Invoked 0 7; AsyncObservable.Invoked 1 7] ++ settled
    /\ AsyncObservable.invocations settled = [].
Proof.
  refine (@parallel_starts_all_first nat unit Sample.processors [1; 0; 0; 0] 7
            (Scenario.asubject [0; 1]) _).
  intros r _ s. eexists. eexists. reflexivity.
Defined.

